(** * Artist endpoints of the Spotify Web API client (artist.go)

    A shallow embedding of the artist endpoint methods of the client
    ([FindArtist], [FindArtists], [ArtistsTopTracks], [FindRelatedArtists],
    [ArtistAlbums], [ArtistAlbumsOpt]) together with the pieces of the Go
    standard library they call ([strconv.Itoa], [url.QueryEscape],
    [url.Values], [strings.Join], [encoding/json]).

    Go strings are byte sequences and are modelled by [string] (a list of
    8-bit [ascii]); Go's [int] is the 64-bit signed integer and is modelled
    by [Z] together with the range predicate [is_int]; a Go pointer that may
    be nil is an [option]; a Go slice that a method returns is the [list] of
    its elements (the nil slice and the empty slice are both [nil]: the code
    never tells them apart), and a slice that the JSON decoder stores into is
    a [json.Slice], which keeps what earlier stores left in its backing
    array. *)

From Stdlib Require Import ZArith List Bool Ascii String Lia Permutation.
Import ListNotations.

Set Warnings "-register-all".
Local Open Scope Z_scope.
Local Open Scope string_scope.

(* ================================================================== *)
(** ** Go's [int] *)

Definition int_min : Z := - 2 ^ 63.
Definition int_max : Z := 2 ^ 63 - 1.
Definition is_int (z : Z) : Prop := int_min <= z <= int_max.

(* ================================================================== *)
(** ** package strings *)

Module strings.

(** [strings.Join(elems, sep)]. *)
Fixpoint Join (elems : list string) (sep : string) : string :=
  match elems with
  | [] => ""
  | [e] => e
  | e :: rest => e ++ sep ++ Join rest sep
  end.

(** [strings.Split(s, sep)] for a one-byte separator: the pieces between
    the occurrences of [sep]; the empty string gives one empty piece. *)
Fixpoint Split (s : string) (sep : ascii) : list string :=
  match s with
  | EmptyString => [""]
  | String c rest =>
      if Ascii.eqb c sep then "" :: Split rest sep
      else match Split rest sep with
           | [] => [String c ""]
           | p :: ps => String c p :: ps
           end
  end.

(** [strings.IndexByte(s, c) >= 0]. *)
Fixpoint ContainsByte (s : string) (c : ascii) : bool :=
  match s with
  | EmptyString => false
  | String d rest => Ascii.eqb d c || ContainsByte rest c
  end.

End strings.

(* ================================================================== *)
(** ** package strconv *)

Module strconv.

Definition digit (d : Z) : ascii := ascii_of_N (48 + Z.to_N d).

(** The loop of [formatBits] for base 10: the digits of [u] are written in
    front of [a], least significant first.  [fuel] bounds the number of
    iterations; a 64-bit value has at most 20 digits. *)
Fixpoint formatBits (fuel : nat) (u : Z) (a : string) : string :=
  match fuel with
  | O => String (digit u) a
  | S fuel' =>
      if (10 <=? u)%Z
      then formatBits fuel' (u / 10) (String (digit (u mod 10)) a)
      else String (digit u) a
  end.

(** [strconv.Itoa(i)], that is [FormatInt(int64(i), 10)]. *)
Definition Itoa (i : Z) : string :=
  if (i <? 0)%Z then String "-" (formatBits 19 (- i) "") else formatBits 19 i "".

(** Reading base-10 text back: the reference against which [Itoa] is
    checked. *)
Definition digitVal (c : ascii) : option Z :=
  let n := N_of_ascii c in
  if ((48 <=? n) && (n <=? 57))%N then Some (Z.of_N n - 48) else None.

Fixpoint parseDigits (s : string) (acc : Z) : option Z :=
  match s with
  | EmptyString => Some acc
  | String c rest =>
      match digitVal c with
      | Some d => parseDigits rest (10 * acc + d)
      | None => None
      end
  end.

Definition parseDecimal (s : string) : option Z :=
  match s with
  | EmptyString => None
  | String "-" rest =>
      match rest with
      | EmptyString => None
      | _ => option_map Z.opp (parseDigits rest 0)
      end
  | _ => parseDigits s 0
  end.

End strconv.

(* ================================================================== *)
(** ** package net/url *)

Module url.

Definition isAlnum (c : ascii) : bool :=
  let n := N_of_ascii c in
  ((65 <=? n) && (n <=? 90) || (97 <=? n) && (n <=? 122) || (48 <=? n) && (n <=? 57))%N.

(** [shouldEscape(c, encodeQueryComponent)]: everything but the unreserved
    characters is escaped in a query component. *)
Definition shouldEscape (c : ascii) : bool :=
  if isAlnum c then false
  else if Ascii.eqb c "-" || Ascii.eqb c "_" || Ascii.eqb c "." || Ascii.eqb c "~"
       then false
       else true.

Definition upperhex (n : N) : ascii :=
  if (n <? 10)%N then ascii_of_N (48 + n) else ascii_of_N (55 + n).

(** [url.QueryEscape(s)]. *)
Fixpoint QueryEscape (s : string) : string :=
  match s with
  | EmptyString => EmptyString
  | String c rest =>
      if Ascii.eqb c " " then String "+" (QueryEscape rest)
      else if shouldEscape c
           then String "%" (String (upperhex (N_of_ascii c / 16))
                              (String (upperhex (N_of_ascii c mod 16)) (QueryEscape rest)))
           else String c (QueryEscape rest)
  end.

Definition unhex (c : ascii) : option N :=
  let n := N_of_ascii c in
  if ((48 <=? n) && (n <=? 57))%N then Some (n - 48)%N
  else if ((97 <=? n) && (n <=? 102))%N then Some (n - 97 + 10)%N
  else if ((65 <=? n) && (n <=? 70))%N then Some (n - 65 + 10)%N
  else None.

(** [url.QueryUnescape(s)]; [None] stands for the [EscapeError]. *)
Fixpoint QueryUnescape (s : string) : option string :=
  match s with
  | EmptyString => Some EmptyString
  | String c rest =>
      if Ascii.eqb c "%" then
        match rest with
        | String h (String l rest') =>
            match unhex h, unhex l, QueryUnescape rest' with
            | Some a, Some b, Some r => Some (String (ascii_of_N (16 * a + b)) r)
            | _, _, _ => None
            end
        | _ => None
        end
      else if Ascii.eqb c "+" then option_map (String " ") (QueryUnescape rest)
      else option_map (String c) (QueryUnescape rest)
  end.

(** [url.Values] is [map[string][]string].  The map is kept as an association
    list with one entry per key; the order of the entries is the (unspecified)
    iteration order of the Go map and [Encode] does not depend on it. *)
Definition Values := list (string * list string).

(** [v.Set(key, value)]: [v[key] = []string{value}]. *)
Fixpoint Set_ (v : Values) (key value : string) : Values :=
  match v with
  | [] => [(key, [value])]
  | (k, vs) :: rest =>
      if String.eqb k key then (k, [value]) :: rest
      else (k, vs) :: Set_ rest key value
  end.

Fixpoint Get (v : Values) (key : string) : list string :=
  match v with
  | [] => []
  | (k, vs) :: rest => if String.eqb k key then vs else Get rest key
  end.

(** [sort.Strings]: insertion into a list sorted by byte-wise order. *)
Fixpoint insertKey (k : string) (ks : list string) : list string :=
  match ks with
  | [] => [k]
  | k' :: rest => if String.leb k k' then k :: ks else k' :: insertKey k rest
  end.

Definition sortStrings (ks : list string) : list string :=
  fold_right insertKey [] ks.

(** The body of the inner loop of [Encode]: one [key=value] pair is written
    to the buffer, after a ['&'] when the buffer is not empty. *)
Definition writePair (prefix : string) (buf value : string) : string :=
  let buf := if (0 <? Z.of_nat (String.length buf))%Z then buf ++ "&" else buf in
  buf ++ prefix ++ QueryEscape value.

(** [v.Encode()]: the pairs sorted by key, keys and values escaped. *)
Definition Encode (v : Values) : string :=
  fold_left
    (fun buf k => fold_left (writePair (QueryEscape k ++ "=")) (Get v k) buf)
    (sortStrings (map fst v)) "".

(** The [key=value] pairs of [v], keys sorted, keys and values escaped:
    what the query string is made of. *)
Definition pairs (v : Values) : list string :=
  flat_map (fun k => map (fun x => QueryEscape k ++ "=" ++ QueryEscape x) (Get v k))
           (sortStrings (map fst v)).

(** Writing one pair to the buffer. *)
Definition write (buf p : string) : string :=
  (if negb (String.eqb buf "") then buf ++ "&" else buf) ++ p.

End url.

(* ================================================================== *)
(** ** Errors and results *)

(** The values of Go's [error] interface that reach this file: the two kinds
    of error of [encoding/json], and every other error value (those of the
    injected transport and of [decodeError]), which the methods only pass
    on. *)
Inductive error : Type :=
| SyntaxError                           (* *json.SyntaxError, io.EOF *)
| UnmarshalTypeError (goType : string)  (* *json.UnmarshalTypeError *)
| OtherError (message : string) (code : Z).

(** A call that yields a value or a non-nil error. *)
Inductive result (T : Type) : Type :=
| Ok (x : T)
| Err (e : error).
Arguments Ok {T} x.
Arguments Err {T} e.

Definition bind {A B : Type} (r : result A) (k : A -> result B) : result B :=
  match r with
  | Ok x => k x
  | Err e => Err e
  end.

Notation "x <- r ;; k" := (bind r (fun x => k))
  (at level 61, r at next level, right associativity).

Fixpoint mapM {A B : Type} (f : A -> result B) (l : list A) : result (list B) :=
  match l with
  | [] => Ok []
  | a :: rest => b <- f a ;; bs <- mapM f rest ;; Ok (b :: bs)
  end.

(* ================================================================== *)
(** ** package encoding/json *)

Module json.

(** A JSON value after lexing, strings unquoted (they hold the UTF-8 bytes
    that the text spells).  Number literals that are integers carry their
    value; the others keep their text and cannot be stored in an [int]. *)
Inductive Value : Type :=
| Null
| Bool (b : bool)
| Number (n : Z)
| Fraction (literal : string)
| Str (s : string)
| Array (elems : list Value)
| Object (members : list (string * Value)).

(** What [Unmarshal] does for a Go type: the zero value of the type, and
    the store of a JSON value into a variable that holds [cur]. *)
Class Unmarshaler (T : Type) : Type := {
  zero : T;
  unmarshal : T -> Value -> result T
}.

(** [string]: a JSON string is stored, [null] leaves the variable as it
    is. *)
#[global] Instance string_Unmarshaler : Unmarshaler string := {|
  zero := "";
  unmarshal cur v :=
    match v with
    | Str s => Ok s
    | Null => Ok cur
    | _ => Err (UnmarshalTypeError "string")
    end
|}.

(** [int]: an integer literal in range is stored. *)
#[global] Instance int_Unmarshaler : Unmarshaler Z := {|
  zero := 0%Z;
  unmarshal cur v :=
    match v with
    | Number n =>
        if ((int_min <=? n) && (n <=? int_max))%Z then Ok n
        else Err (UnmarshalTypeError "int")
    | Null => Ok cur
    | _ => Err (UnmarshalTypeError "int")
    end
|}.

(** A slice [[]T].  The decoder stores the elements of an array into the
    elements that the slice already has, so what an earlier store left
    behind matters, also beyond the length of the slice: [backing] is the part
    of the backing array that was ever written, and the slice is its first
    [len] elements.  The nil slice has no backing. *)
Record Slice (T : Type) : Type := {
  backing : list T;
  len : nat
}.
Arguments backing {T} s.
Arguments len {T} s.
Arguments Build_Slice {T} backing len.

Definition nilSlice {T : Type} : Slice T := {| backing := []; len := 0 |}.

Definition elements {T : Type} (s : Slice T) : list T := firstn (len s) (backing s).

(** The loop of [decodeState.array]: element [i] of the array is stored into
    element [i] of the backing array ([v.Index(i)]), which holds what it held
    before, or the zero value where nothing was written yet. *)
Fixpoint decodeElems {T : Type} (store : T -> Value -> result T) (fresh : T)
    (old : list T) (elems : list Value) : result (list T) :=
  match elems with
  | [] => Ok []
  | e :: rest =>
      x <- store (match old with x :: _ => x | [] => fresh end) e ;;
      xs <- decodeElems store fresh (tl old) rest ;;
      Ok (x :: xs)
  end.

(** An array is stored element by element and the length is set to the
    number of elements; the empty array gives a new empty slice; [null] gives
    the nil slice. *)
#[global] Instance slice_Unmarshaler {T : Type} `{Unmarshaler T} : Unmarshaler (Slice T) := {|
  zero := nilSlice;
  unmarshal cur v :=
    match v with
    | Array [] => Ok {| backing := []; len := 0 |}
    | Array elems =>
        xs <- decodeElems unmarshal zero (backing cur) elems ;;
        Ok {| backing := (xs ++ skipn (List.length elems) (backing cur))%list;
              len := List.length elems |}
    | Null => Ok nilSlice
    | _ => Err (UnmarshalTypeError "slice")
    end
|}.

(** A pointer [*T]: [null] gives nil; any other value is stored into the
    pointee, allocated when the pointer is nil. *)
#[global] Instance pointer_Unmarshaler {T : Type} `{Unmarshaler T} : Unmarshaler (option T) := {|
  zero := None;
  unmarshal cur v :=
    match v with
    | Null => Ok None
    | _ =>
        x <- unmarshal (match cur with Some x => x | None => zero end) v ;;
        Ok (Some x)
    end
|}.

(** [json.RawMessage]: the bytes of the value, kept for a later
    [Unmarshal]; they are represented by the value they spell.  [None] is the
    empty message of a field that was never stored. *)
Definition RawMessage := option Value.

Definition RawMessage_store (cur : RawMessage) (v : Value) : result RawMessage :=
  Ok (Some v).

(** *** Matching a key with a field (fold.go) *)

(** The names of the fields of this package are ASCII.  For a name with
    other bytes the decoder folds with [bytes.EqualFold], which is not
    modelled: a [FieldName] cannot be such a name. *)
Fixpoint isASCII (s : string) : bool :=
  match s with
  | EmptyString => true
  | String b rest => (N_of_ascii b <? 128)%N && isASCII rest
  end.

Record FieldName : Type := {
  name_bytes :> string;
  name_ascii : isASCII name_bytes = true
}.

(** [b & caseMask]. *)
Definition caseMask (b : ascii) : N := N.land (N_of_ascii b) 223.

Definition isUpperAZ (u : N) : bool := ((65 <=? u) && (u <=? 90))%N.

Definition isLetter (b : ascii) : bool :=
  let n := N_of_ascii b in
  ((97 <=? n) && (n <=? 122) || (65 <=? n) && (n <=? 90))%N.

(** The UTF-8 encodings of U+017F (small long s) and U+212A (Kelvin
    sign). *)
Definition smallLongEss : string := String (ascii_of_N 197) (String (ascii_of_N 191) "").
Definition kelvin : string :=
  String (ascii_of_N 226) (String (ascii_of_N 132) (String (ascii_of_N 170) "")).

(** [utf8.DecodeRune(t)] returns a rune and its size; it returns the rune
    [r] exactly when [t] begins with the encoding of [r]: [afterRune r t] is
    then the rest of [t]. *)
Fixpoint afterRune (r t : string) : option string :=
  match r with
  | EmptyString => Some t
  | String b r' =>
      match t with
      | String c t' => if Ascii.eqb b c then afterRune r' t' else None
      | EmptyString => None
      end
  end.

(** [simpleLetterEqualFold(s, t)], for a name of letters other than k and
    s. *)
Fixpoint simpleLetterEqualFold (s t : string) : bool :=
  match s, t with
  | EmptyString, EmptyString => true
  | String b s', String c t' => (caseMask b =? caseMask c)%N && simpleLetterEqualFold s' t'
  | _, _ => false
  end.

(** [asciiEqualFold(s, t)], for a name without k and s. *)
Fixpoint asciiEqualFold (s t : string) : bool :=
  match s, t with
  | EmptyString, EmptyString => true
  | String sb s', String tb t' =>
      (if Ascii.eqb sb tb then true
       else if isLetter sb then (caseMask sb =? caseMask tb)%N
            else false)
      && asciiEqualFold s' t'
  | _, _ => false
  end.

(** [equalFoldRight(s, t)], for a name with k or s: a byte of [t] that is
    not ASCII must start U+017F where [s] has an s, or U+212A where [s] has
    a k. *)
Fixpoint equalFoldRight (s t : string) : bool :=
  match s with
  | EmptyString => match t with EmptyString => true | _ => false end
  | String sb s' =>
      match t with
      | EmptyString => false
      | String tb t' =>
          if (N_of_ascii tb <? 128)%N then
            (if Ascii.eqb sb tb then true
             else if isUpperAZ (caseMask sb) then (caseMask sb =? caseMask tb)%N
                  else false)
            && equalFoldRight s' t'
          else if (caseMask sb =? 83)%N then
            match afterRune smallLongEss t with
            | Some t'' => equalFoldRight s' t''
            | None => false
            end
          else if (caseMask sb =? 75)%N then
            match afterRune kelvin t with
            | Some t'' => equalFoldRight s' t''
            | None => false
            end
          else false
      end
  end.

(** The scan of [foldFunc]: whether the name has a byte that is no letter,
    and whether it has one of k, K, s, S. *)
Fixpoint scanName (s : string) : bool * bool :=
  match s with
  | EmptyString => (false, false)
  | String b rest =>
      let (nonLetter, special) := scanName rest in
      let upper := caseMask b in
      if negb (isUpperAZ upper) then (true, special)
      else if ((upper =? 75) || (upper =? 83))%N then (nonLetter, true)
      else (nonLetter, special)
  end.

(** [foldFunc(s)]. *)
Definition foldFunc (s : FieldName) : string -> string -> bool :=
  let (nonLetter, special) := scanName s in
  if special then equalFoldRight
  else if nonLetter then asciiEqualFold
  else simpleLetterEqualFold.

(** The search of [decodeState.object] for the field of a key: the field
    whose name is the key, or else the first field whose name folds to the
    key.  [f] is the field found so far and [i] the index of the next
    field. *)
Fixpoint findFrom (fields : list FieldName) (key : string) (i : nat) (f : option nat)
  : option nat :=
  match fields with
  | [] => f
  | ff :: rest =>
      if String.eqb ff key then Some i
      else findFrom rest key (S i)
             (match f with
              | None => if foldFunc ff ff key then Some i else None
              | Some _ => f
              end)
  end.

Definition findField (fields : list FieldName) (key : string) : option nat :=
  findFrom fields key 0 None.

(** The member with key [key] is stored in the field named [name]. *)
Definition selectsb (fields : list FieldName) (key name : string) : bool :=
  match findField fields key with
  | Some i =>
      match nth_error fields i with
      | Some ff => String.eqb ff name
      | None => false
      end
  | None => false
  end.

(** The member with key [key] is stored in the one field [name] of a struct
    with no other field. *)
Definition matches (name : FieldName) (key : string) : bool :=
  match findField [name] key with
  | Some _ => true
  | None => false
  end.

(** A struct: the members of a JSON object are visited in order and each is
    stored by [setField], which finds the field of the key and ignores
    a key that has none. *)
Definition store {T : Type} (setField : T -> string -> Value -> result T)
    (acc : result T) (member : string * Value) : result T :=
  st <- acc ;; setField st (fst member) (snd member).

Definition unmarshalStruct {T : Type} (goType : string)
    (setField : T -> string -> Value -> result T) (cur : T) (v : Value) : result T :=
  match v with
  | Object members => fold_left (store setField) members (Ok cur)
  | Null => Ok cur
  | _ => Err (UnmarshalTypeError goType)
  end.

(** The body of an HTTP response as [json.NewDecoder(body).Decode] reads it.
    The decoder reads the first JSON value of the stream and leaves what
    follows it unread: the body is [Document v] when its bytes begin with the
    value [v], and [Malformed] when they begin with no JSON value. *)
Inductive Body : Type :=
| Malformed
| Document (v : Value).

(** [v] is the value of the last member of the document [b] that is stored
    in the field [name] of a struct with the fields [fields]. *)
Definition member_is (fields : list FieldName) (b : Body) (name : string) (v : Value) : Prop :=
  exists pre post key,
    b = Document (Object (pre ++ (key, v) :: post)) /\
    selectsb fields key name = true /\
    Forall (fun member => selectsb fields (fst member) name = false) post.

(** [json.NewDecoder(body).Decode(&x)] with [x] holding its zero value. *)
Definition Decode {T : Type} `{Unmarshaler T} (b : Body) : result T :=
  match b with
  | Malformed => Err SyntaxError
  | Document v => unmarshal zero v
  end.

(** [json.Unmarshal(raw, &x)] with [x] holding its zero value; the empty
    message is not a JSON value. *)
Definition Unmarshal {T : Type} `{Unmarshaler T} (raw : RawMessage) : result T :=
  match raw with
  | None => Err SyntaxError
  | Some v => unmarshal zero v
  end.

End json.

(** The field name [s], an ASCII literal. *)
Abbreviation field s := (json.Build_FieldName s eq_refl) (only parsing).

(* ================================================================== *)
(** ** Declarations of package spotify outside artist.go *)

(** [ID] and [URI] are string types ([string(id)] converts them). *)
Definition ID : Type := string.
Definition URI : Type := string.

(** The constants, types and helpers of the package that artist.go uses and
    that are declared in its other files.  They are parameters of the
    development: the base address of the API, the fallback country code, the
    album type filter with its [encode] method, the error decoder, and the
    entity types that are decoded from JSON. *)
Class Package : Type := {
  baseAddress : string;
  CountryUSA : string;
  AlbumType : Type;
  encode : AlbumType -> string;
  decodeError : json.Body -> error;
  ExternalURL : Type;
  ExternalURL_json :: json.Unmarshaler ExternalURL;
  Followers : Type;
  Followers_json :: json.Unmarshaler Followers;
  Image : Type;
  Image_json :: json.Unmarshaler Image;
  SimpleAlbum : Type;
  SimpleAlbum_json :: json.Unmarshaler SimpleAlbum;
  FullTrack : Type;
  FullTrack_json :: json.Unmarshaler FullTrack
}.

(** Modelled from the spec: the helper [toStringSlice] is declared outside
    artist.go; the identifier list is sent as the comma-joined list of the
    identifiers, so it converts each [ID] to its string, in order. *)
Definition toStringSlice (ids : list ID) : list string := map (fun id : ID => id) ids.

(** [Options]: each field is a pointer, nil when the parameter is not set. *)
Record Options : Type := {
  Country : option string;
  Limit : option Z;
  Offset : option Z
}.

(** An [Options] value in which nothing is set. *)
Definition no_options : Options := {| Country := None; Limit := None; Offset := None |}.

(** Modelled from the spec: the struct [rawPage] is declared outside
    artist.go.  The page envelope is
    [{items, total: int, limit: int, offset: int, href: string, next, previous}],
    with the items kept as a raw payload for a second decode. *)
Record rawPage : Type := {
  rp_Endpoint : string;
  rp_Limit : Z;
  rp_Next : string;
  rp_Offset : Z;
  rp_Previous : string;
  rp_Total : Z;
  rp_Items : json.RawMessage
}.

Definition rawPage_fields : list json.FieldName :=
  [field "href"; field "limit"; field "next"; field "offset"; field "previous";
   field "total"; field "items"].

Definition rawPage_setField (p : rawPage) (key : string) (v : json.Value) : result rawPage :=
  let '(Build_rawPage e l n o pr t i) := p in
  match json.findField rawPage_fields key with
  | Some 0%nat => x <- json.unmarshal e v ;; Ok (Build_rawPage x l n o pr t i)
  | Some 1%nat => x <- json.unmarshal l v ;; Ok (Build_rawPage e x n o pr t i)
  | Some 2%nat => x <- json.unmarshal n v ;; Ok (Build_rawPage e l x o pr t i)
  | Some 3%nat => x <- json.unmarshal o v ;; Ok (Build_rawPage e l n x pr t i)
  | Some 4%nat => x <- json.unmarshal pr v ;; Ok (Build_rawPage e l n o x t i)
  | Some 5%nat => x <- json.unmarshal t v ;; Ok (Build_rawPage e l n o pr x i)
  | Some 6%nat => x <- json.RawMessage_store i v ;; Ok (Build_rawPage e l n o pr t x)
  | _ => Ok p
  end.

#[export] Instance rawPage_json : json.Unmarshaler rawPage := {|
  json.zero := Build_rawPage "" 0 "" 0 "" 0 None;
  json.unmarshal := json.unmarshalStruct "rawPage" rawPage_setField
|}.

(** [http.StatusOK]. *)
Definition StatusOK : Z := 200.

(** The 2xx statuses. *)
Definition success (status : Z) : Prop := 200 <= status < 300.

(** What the methods read of an [*http.Response]. *)
Record Response : Type := {
  StatusCode : Z;
  Body : json.Body
}.

Section Artist.

Context {pkg : Package}.

(** [SimpleAlbumPage]: the fields that [ArtistAlbumsOpt] assigns. *)
Record SimpleAlbumPage : Type := {
  Endpoint : string;
  PageLimit : Z;
  PageOffset : Z;
  Total : Z;
  Next : string;
  Previous : string;
  Albums : list SimpleAlbum
}.

(* ------------------------------------------------------------------ *)
(** *** The entity types of artist.go *)

Record SimpleArtist : Type := {
  Name : string;
  ArtistID : ID;
  ArtistURI : URI;
  ArtistEndpoint : string;
  ExternalURLs : ExternalURL
}.

Record FullArtist : Type := {
  Simple : SimpleArtist;
  Popularity : Z;
  Genres : json.Slice string;
  ArtistFollowers : Followers;
  Images : json.Slice Image
}.

Definition SimpleArtist_zero : SimpleArtist :=
  Build_SimpleArtist "" "" "" "" json.zero.

Definition FullArtist_zero : FullArtist :=
  Build_FullArtist SimpleArtist_zero 0 json.nilSlice json.zero json.nilSlice.

(** The fields of [FullArtist] by JSON name, in the order of the struct:
    those of the embedded [SimpleArtist] are promoted; [Followers] has no tag
    and goes by its Go name. *)
Definition FullArtist_fields : list json.FieldName :=
  [field "name"; field "id"; field "uri"; field "href"; field "external_urls";
   field "popularity"; field "genres"; field "Followers"; field "images"].

Definition FullArtist_setField (a : FullArtist) (key : string) (v : json.Value)
  : result FullArtist :=
  let '(Build_FullArtist (Build_SimpleArtist nm id uri href ext) pop gen fol img) := a in
  match json.findField FullArtist_fields key with
  | Some 0%nat =>
      x <- json.unmarshal nm v ;; Ok (Build_FullArtist (Build_SimpleArtist x id uri href ext) pop gen fol img)
  | Some 1%nat =>
      x <- json.unmarshal id v ;; Ok (Build_FullArtist (Build_SimpleArtist nm x uri href ext) pop gen fol img)
  | Some 2%nat =>
      x <- json.unmarshal uri v ;; Ok (Build_FullArtist (Build_SimpleArtist nm id x href ext) pop gen fol img)
  | Some 3%nat =>
      x <- json.unmarshal href v ;; Ok (Build_FullArtist (Build_SimpleArtist nm id uri x ext) pop gen fol img)
  | Some 4%nat =>
      x <- json.unmarshal ext v ;; Ok (Build_FullArtist (Build_SimpleArtist nm id uri href x) pop gen fol img)
  | Some 5%nat =>
      x <- json.unmarshal pop v ;; Ok (Build_FullArtist (Build_SimpleArtist nm id uri href ext) x gen fol img)
  | Some 6%nat =>
      x <- json.unmarshal gen v ;; Ok (Build_FullArtist (Build_SimpleArtist nm id uri href ext) pop x fol img)
  | Some 7%nat =>
      x <- json.unmarshal fol v ;; Ok (Build_FullArtist (Build_SimpleArtist nm id uri href ext) pop gen x img)
  | Some 8%nat =>
      x <- json.unmarshal img v ;; Ok (Build_FullArtist (Build_SimpleArtist nm id uri href ext) pop gen fol x)
  | _ => Ok a
  end.

#[export] Instance FullArtist_json : json.Unmarshaler FullArtist := {|
  json.zero := FullArtist_zero;
  json.unmarshal := json.unmarshalStruct "FullArtist" FullArtist_setField
|}.

(** An anonymous struct with the single field [name]: the field is stored
    when its name is found for the key, other keys are ignored. *)
Definition field_setField {T : Type} `{json.Unmarshaler T} (name : json.FieldName)
    (cur : T) (key : string) (v : json.Value) : result T :=
  if json.matches name key then json.unmarshal cur v else Ok cur.

Definition decodeField {T : Type} `{json.Unmarshaler T} (name : json.FieldName)
    (b : json.Body) : result T :=
  match b with
  | json.Malformed => Err SyntaxError
  | json.Document v => json.unmarshalStruct "struct" (field_setField name) json.zero v
  end.

(* ------------------------------------------------------------------ *)
(** *** The client *)

(** The injected transport ([c.http]) acts on a state of the outside world
    of type [World]: [http_Get] is [c.http.Get(uri)], which yields a response
    or a non-nil error, and [Body_Close] is [resp.Body.Close()]. *)
Variable World : Type.

Record Client : Type := {
  http_Get : string -> World -> result Response * World;
  Body_Close : Response -> World -> World
}.

(** A method returns a Go pair (value, error) and the new state of the
    world. *)
Definition returns (T : Type) : Type := (T * option error) * World.

(** [defer resp.Body.Close()]: the body is closed when the method returns
    [ret]. *)
Definition deferred {T : Type} (close : World -> World) (ret : T * option error)
    (w : World) : returns T :=
  (ret, close w).

(** [FindArtist]. *)
Definition FindArtist (c : Client) (id : ID) (w : World) : returns (option FullArtist) :=
  let uri := baseAddress ++ "artists/" ++ id in
  let (r, w) := http_Get c uri w in
  match r with
  | Err err => ((None, Some err), w)
  | Ok resp =>
      deferred (Body_Close c resp)
        (if negb (StatusCode resp =? StatusOK)%Z
         then (None, Some (decodeError (Body resp)))
         else match json.Decode (T := FullArtist) (Body resp) with
              | Err err => (None, Some err)
              | Ok a => (Some a, None)
              end) w
  end.

(** [FindArtists]. *)
Definition FindArtists (c : Client) (ids : list ID) (w : World)
  : returns (list (option FullArtist)) :=
  let uri := baseAddress ++ "artists?ids=" ++ strings.Join (toStringSlice ids) "," in
  let (r, w) := http_Get c uri w in
  match r with
  | Err err => (([], Some err), w)
  | Ok resp =>
      deferred (Body_Close c resp)
        (if negb (StatusCode resp =? StatusOK)%Z
         then ([], Some (decodeError (Body resp)))
         else match decodeField (T := json.Slice (option FullArtist)) (field "Artists")
                                (Body resp) with
              | Err err => ([], Some err)
              | Ok artists => (json.elements artists, None)
              end) w
  end.

(** [ArtistsTopTracks]. *)
Definition ArtistsTopTracks (c : Client) (artistID : ID) (country : string) (w : World)
  : returns (list FullTrack) :=
  let uri := baseAddress ++ "artists/" ++ artistID ++ "/top-tracks?country=" ++ country in
  let (r, w) := http_Get c uri w in
  match r with
  | Err err => (([], Some err), w)
  | Ok resp =>
      deferred (Body_Close c resp)
        (if negb (StatusCode resp =? StatusOK)%Z
         then ([], Some (decodeError (Body resp)))
         else match decodeField (T := json.Slice FullTrack) (field "tracks") (Body resp) with
              | Err err => ([], Some err)
              | Ok tracks => (json.elements tracks, None)
              end) w
  end.

(** [FindRelatedArtists]. *)
Definition FindRelatedArtists (c : Client) (id : ID) (w : World)
  : returns (list FullArtist) :=
  let uri := baseAddress ++ "artists/" ++ id ++ "/related-artists" in
  let (r, w) := http_Get c uri w in
  match r with
  | Err err => (([], Some err), w)
  | Ok resp =>
      deferred (Body_Close c resp)
        (if negb (StatusCode resp =? StatusOK)%Z
         then ([], Some (decodeError (Body resp)))
         else match decodeField (T := json.Slice FullArtist) (field "artists") (Body resp) with
              | Err err => ([], Some err)
              | Ok artists => (json.elements artists, None)
              end) w
  end.

(** [ArtistAlbumsOpt]: the [url.Values] built when [options] is not nil. *)
Definition ArtistAlbumsOpt_values (options : Options) (t : option AlbumType) : url.Values :=
  let values : url.Values := [] in
  let values :=
    match t with
    | Some t => url.Set_ values "album_type" (encode t)
    | None => values
    end in
  let values :=
    match Country options with
    | Some country => url.Set_ values "market" country
    | None => url.Set_ values "market" CountryUSA
    end in
  let values :=
    match Limit options with
    | Some limit => url.Set_ values "limit" (strconv.Itoa limit)
    | None => values
    end in
  let values :=
    match Offset options with
    | Some offset => url.Set_ values "offset" (strconv.Itoa offset)
    | None => values
    end in
  values.

(** The query string, [values.Encode()]. *)
Definition ArtistAlbumsOpt_query (options : Options) (t : option AlbumType) : string :=
  url.Encode (ArtistAlbumsOpt_values options t).

(** The parameters of the query string as the specification lists them: the
    parameters that were set, and the market with its fallback, each as
    [key=value] with the value percent-encoded, in the order of their
    keys. *)
Definition param (key value : string) : string := key ++ "=" ++ url.QueryEscape value.

Definition expectedParams (options : Options) (t : option AlbumType) : list string :=
  (match t with Some t => [param "album_type" (encode t)] | None => [] end ++
   match Limit options with Some l => [param "limit" (strconv.Itoa l)] | None => [] end ++
   [param "market" (match Country options with Some c => c | None => CountryUSA end)] ++
   match Offset options with Some o => [param "offset" (strconv.Itoa o)] | None => [] end)%list.

(** The market that is sent for [options]: its country, or the fallback. *)
Definition market (options : Options) : string :=
  match Country options with Some country => country | None => CountryUSA end.

(** The request URI of [ArtistAlbumsOpt]. *)
Definition ArtistAlbumsOpt_uri (artistID : ID) (options : option Options)
    (t : option AlbumType) : string :=
  let uri := baseAddress ++ "artists/" ++ artistID ++ "/albums" in
  match options with
  | Some options =>
      let query := ArtistAlbumsOpt_query options t in
      if negb (String.eqb query "") then uri ++ "?" ++ query else uri
  | None => uri
  end.

(** [ArtistAlbumsOpt]: after the GET, the envelope is decoded into a
    [rawPage], then its items into the albums of the result, whose other
    fields are copied from the envelope. *)
Definition ArtistAlbumsOpt (c : Client) (artistID : ID) (options : option Options)
    (t : option AlbumType) (w : World) : returns (option SimpleAlbumPage) :=
  let uri := ArtistAlbumsOpt_uri artistID options t in
  let (r, w) := http_Get c uri w in
  match r with
  | Err err => ((None, Some err), w)
  | Ok resp =>
      deferred (Body_Close c resp)
        (if negb (StatusCode resp =? StatusOK)%Z
         then (None, Some (decodeError (Body resp)))
         else match json.Decode (T := rawPage) (Body resp) with
              | Err err => (None, Some err)
              | Ok p =>
                  match json.Unmarshal (T := json.Slice SimpleAlbum) (rp_Items p) with
                  | Err err => (None, Some err)
                  | Ok albums =>
                      (Some {| Albums := json.elements albums;
                               Endpoint := rp_Endpoint p;
                               PageLimit := rp_Limit p;
                               PageOffset := rp_Offset p;
                               Total := rp_Total p;
                               Previous := rp_Previous p;
                               Next := rp_Next p |}, None)
                  end
              end) w
  end.

(** [ArtistAlbums]. *)
Definition ArtistAlbums (c : Client) (artistID : ID) (w : World)
  : returns (option SimpleAlbumPage) :=
  ArtistAlbumsOpt c artistID None None w.

End Artist.

Arguments Client World : clear implicits.
Arguments http_Get {World} c uri w.
Arguments Body_Close {World} c resp w.
Arguments FindArtist {pkg World} c id w.
Arguments FindArtists {pkg World} c ids w.
Arguments ArtistsTopTracks {pkg World} c artistID country w.
Arguments FindRelatedArtists {pkg World} c id w.
Arguments ArtistAlbumsOpt {pkg World} c artistID options t w.
Arguments ArtistAlbums {pkg World} c artistID w.

(* ================================================================== *)
(** ** The album type filter *)

Module albumtype.

(** Modelled from the spec: the type [AlbumType] and its [encode] method are
    declared outside artist.go, and the package has no decoder for the
    token.  The categories are a closed set of named flags: category [i] of
    the list [names] has the flag [1 << i]; flags are combined by bitwise OR;
    the combined value is encoded as the comma-joined names of the flags it
    holds, in flag order; decoding splits the token at the commas and reads
    each name back as its category. *)
Definition AlbumType : Type := Z.

Definition flag (i : nat) : AlbumType := Z.shiftl 1 (Z.of_nat i).

Definition or (a b : AlbumType) : AlbumType := Z.lor a b.

(** The OR of the flags of a set of categories. *)
Definition combine (cs : list nat) : AlbumType :=
  fold_right (fun c acc => or (flag c) acc) 0%Z cs.

Definition has (a : AlbumType) (i : nat) : bool :=
  negb (Z.land a (flag i) =? 0)%Z.

Fixpoint tokens (names : list string) (i : nat) (a : AlbumType) : list string :=
  match names with
  | [] => []
  | n :: rest =>
      if has a i then n :: tokens rest (S i) a else tokens rest (S i) a
  end.

Definition encode (names : list string) (a : AlbumType) : string :=
  strings.Join (tokens names 0 a) ",".

Fixpoint category (names : list string) (i : nat) (token : string) : option nat :=
  match names with
  | [] => None
  | n :: rest => if String.eqb n token then Some i else category rest (S i) token
  end.

Fixpoint categories (names : list string) (toks : list string) : option (list nat) :=
  match toks with
  | [] => Some []
  | tok :: rest =>
      match category names 0 tok, categories names rest with
      | Some c, Some cs => Some (c :: cs)
      | _, _ => None
      end
  end.

(** The category set of a token; [None] when a name is not a category. *)
Definition decode (names : list string) (s : string) : option (list nat) :=
  if String.eqb s "" then Some [] else categories names (strings.Split s ",").

(** A list of names is a set of categories when the names are distinct,
    not empty and free of commas, and the flags fit Go's [int]. *)
Definition comma_free (n : string) : Prop := strings.ContainsByte n "," = false.

Definition well_named (names : list string) : Prop :=
  NoDup names /\ Forall (fun n => n <> "" /\ comma_free n) names /\
  (List.length names <= 63)%nat.

(** The categories that [a] holds among those of [names], numbered from
    [i]. *)
Fixpoint held (names : list string) (i : nat) (a : AlbumType) : list nat :=
  match names with
  | [] => []
  | _ :: rest => if has a i then i :: held rest (S i) a else held rest (S i) a
  end.

(** The category names of the Web API, used in the examples. *)
Definition webapi_names : list string := ["album"; "single"; "appears_on"; "compilation"].

End albumtype.

(* ================================================================== *)
(** ** An instance of the package for the examples *)

(** Modelled from the spec: [decodeError] is declared outside artist.go.  A
    body of the shape [{error: {status: int, message: string}}] gives the
    error with that code and message; any other body gives a generic decode
    error. *)
Fixpoint memberNamed (name : string) (members : list (string * json.Value))
  : option json.Value :=
  match members with
  | [] => None
  | (key, v) :: rest => if String.eqb key name then Some v else memberNamed name rest
  end.

Definition decodeError_spec (b : json.Body) : error :=
  match b with
  | json.Document (json.Object members) =>
      match memberNamed "error" members with
      | Some (json.Object envelope) =>
          match memberNamed "status" envelope, memberNamed "message" envelope with
          | Some (json.Number status), Some (json.Str message) => OtherError message status
          | _, _ => OtherError "spotify: couldn't decode error" 0
          end
      | _ => OtherError "spotify: couldn't decode error" 0
      end
  | _ => OtherError "spotify: couldn't decode error" 0
  end.

(** The entity types whose structs are declared outside artist.go, for the
    examples: of a JSON object the members are kept; like every struct, the
    entity is left as it is by [null] and takes no other JSON value. *)
Definition Members : Type := list (string * json.Value).

Definition Members_Unmarshaler : json.Unmarshaler Members := {|
  json.zero := [];
  json.unmarshal := fun cur v =>
    match v with
    | json.Object members => Ok (cur ++ members)%list
    | json.Null => Ok cur
    | _ => Err (UnmarshalTypeError "struct")
    end
|}.

Definition example_pkg : Package := {|
  baseAddress := "https://api.spotify.com/v1/";
  CountryUSA := "US";
  AlbumType := albumtype.AlbumType;
  encode := albumtype.encode albumtype.webapi_names;
  decodeError := decodeError_spec;
  ExternalURL := Members;
  ExternalURL_json := Members_Unmarshaler;
  Followers := Members;
  Followers_json := Members_Unmarshaler;
  Image := Members;
  Image_json := Members_Unmarshaler;
  SimpleAlbum := Members;
  SimpleAlbum_json := Members_Unmarshaler;
  FullTrack := Members;
  FullTrack_json := Members_Unmarshaler
|}.

(** A transport for the examples: the world is the log of the requested
    URIs and of the closed bodies, and every request is answered by
    [answer]. *)
Inductive event : Type :=
| Requested (uri : string)
| Closed.

Definition logging_client (answer : string -> result Response) : Client (list event) := {|
  http_Get := fun uri w => (answer uri, w ++ [Requested uri])%list;
  Body_Close := fun _ w => (w ++ [Closed])%list
|}.

(** Options and an album type for the examples. *)
Definition options_FR_10_0 : Options :=
  {| Country := Some "FR"; Limit := Some 10; Offset := Some 0 |}.

Definition album_or_compilation : option (@AlbumType example_pkg) :=
  Some (albumtype.or (albumtype.flag 0) (albumtype.flag 3)).

(** Transports that answer every request with one response, or fail every
    request with one error. *)
Definition answering (status : Z) (body : json.Body) : Client (list event) :=
  logging_client (fun _ => Ok {| StatusCode := status; Body := body |}).

Definition failing (err : error) : Client (list event) :=
  logging_client (fun _ => Err err).

(** Bodies for the examples: an artist, the answer to a request for the
    artists [A, B, A, Z] where [Z] is unknown, the error envelope of an
    unknown identifier, and a page of ten albums out of 37. *)
Definition artist_json (id name : string) : json.Value :=
  json.Object [("external_urls", json.Object [("spotify", json.Str ("https://open.spotify.com/artist/" ++ id))]);
               ("followers", json.Object [("href", json.Null); ("total", json.Number 7)]);
               ("genres", json.Array [json.Str "rock"]);
               ("href", json.Str ("https://api.spotify.com/v1/artists/" ++ id));
               ("id", json.Str id);
               ("images", json.Array []);
               ("name", json.Str name);
               ("popularity", json.Number 50);
               ("type", json.Str "artist");
               ("uri", json.Str ("spotify:artist:" ++ id))].

Definition artist_entity (id name : string) : @FullArtist example_pkg :=
  @Build_FullArtist example_pkg
    (@Build_SimpleArtist example_pkg
       name id ("spotify:artist:" ++ id) ("https://api.spotify.com/v1/artists/" ++ id)
       [("spotify", json.Str ("https://open.spotify.com/artist/" ++ id))])
    50 {| json.backing := ["rock"]; json.len := 1 |}
    [("href", json.Null); ("total", json.Number 7)]
    {| json.backing := []; json.len := 0 |}.

Definition artists_ABAZ : list json.Value :=
  [artist_json "A" "Alpha"; artist_json "B" "Beta"; artist_json "A" "Alpha"; json.Null].

Definition artists_body : json.Body :=
  json.Document (json.Object [("artists", json.Array artists_ABAZ)]).

Definition not_found_body : json.Body :=
  json.Document (json.Object [("error", json.Object [("status", json.Number 404);
                                                     ("message", json.Str "not found")])]).

Definition album_members (name : string) : Members :=
  [("album_type", json.Str "album"); ("name", json.Str name)].

Definition album_json (name : string) : json.Value := json.Object (album_members name).

Definition album_names : list string :=
  ["a0"; "a1"; "a2"; "a3"; "a4"; "a5"; "a6"; "a7"; "a8"; "a9"].

Definition ten_albums : list json.Value := map album_json album_names.

Definition ten_album_entities : list Members := map album_members album_names.

Definition page_body : json.Body :=
  json.Document (json.Object [("href", json.Str "https://api.spotify.com/v1/artists/X/albums?offset=20&limit=10");
                              ("items", json.Array ten_albums);
                              ("limit", json.Number 10);
                              ("next", json.Str "https://api.spotify.com/v1/artists/X/albums?offset=30&limit=10");
                              ("offset", json.Number 20);
                              ("previous", json.Str "https://api.spotify.com/v1/artists/X/albums?offset=10&limit=10");
                              ("total", json.Number 37)]).

Definition page_envelope : rawPage :=
  {| rp_Endpoint := "https://api.spotify.com/v1/artists/X/albums?offset=20&limit=10";
     rp_Limit := 10;
     rp_Next := "https://api.spotify.com/v1/artists/X/albums?offset=30&limit=10";
     rp_Offset := 20;
     rp_Previous := "https://api.spotify.com/v1/artists/X/albums?offset=10&limit=10";
     rp_Total := 37;
     rp_Items := Some (json.Array ten_albums) |}.

(** More bodies for the examples: one artist, related artists with a
    [null] among them, top tracks, artists with an element that is no artist,
    an envelope without items and one whose items are [null]. *)
Definition artist_body : json.Body := json.Document (artist_json "A" "Alpha").

Definition related_body : json.Body :=
  json.Document (json.Object [("artists", json.Array [artist_json "B" "Beta"; json.Null])]).

Definition track_json (name : string) : json.Value :=
  json.Object [("name", json.Str name); ("popularity", json.Number 60)].

Definition tracks_body : json.Body :=
  json.Document (json.Object [("tracks", json.Array [track_json "t1"; track_json "t2"])]).

Definition bad_artists_body : json.Body :=
  json.Document (json.Object [("artists", json.Array [artist_json "A" "Alpha"; json.Number 3])]).

Definition page_without_items : json.Body :=
  json.Document (json.Object [("limit", json.Number 10); ("total", json.Number 37)]).

Definition page_null_items : json.Body :=
  json.Document (json.Object [("items", json.Null); ("limit", json.Number 10);
                              ("total", json.Number 0)]).

(* ================================================================== *)
(** ** Reading a query string *)

Module urlquery.

(** [url.ParseQuery], the reader of the query strings that [url.Values.Encode]
    writes: the query is cut at every ['&'] and [';'], each piece that is not
    empty is cut at its first ['='], key and value are unescaped and the value
    is added to the values of the key.  [None] stands for a non-nil error. *)
Definition isSeparator (c : ascii) : bool := Ascii.eqb c "&" || Ascii.eqb c ";".

Fixpoint pieces (query : string) : list string :=
  match query with
  | EmptyString => [""]
  | String c rest =>
      if isSeparator c then "" :: pieces rest
      else match pieces rest with
           | [] => [String c ""]
           | p :: ps => String c p :: ps
           end
  end.

Fixpoint cut (s : string) : string * option string :=
  match s with
  | EmptyString => ("", None)
  | String c rest =>
      if Ascii.eqb c "=" then ("", Some rest)
      else let (k, v) := cut rest in (String c k, v)
  end.

(** [v.Add(key, value)]: [v[key] = append(v[key], value)]. *)
Fixpoint Add (v : url.Values) (key value : string) : url.Values :=
  match v with
  | [] => [(key, [value])]
  | (k, vs) :: rest =>
      if String.eqb k key then (k, (vs ++ [value])%list) :: rest
      else (k, vs) :: Add rest key value
  end.

Definition parsePiece (m : option url.Values) (piece : string) : option url.Values :=
  if String.eqb piece "" then m
  else
    let (key, value) := cut piece in
    let value := match value with Some v => v | None => "" end in
    match m, url.QueryUnescape key, url.QueryUnescape value with
    | Some m, Some key, Some value => Some (Add m key value)
    | _, _, _ => None
    end.

Definition ParseQuery (query : string) : option url.Values :=
  fold_left parsePiece (pieces query) (Some []).

(** No byte of [s] is one of [bad]. *)
Fixpoint free (bad : ascii -> bool) (s : string) : bool :=
  match s with
  | EmptyString => true
  | String c rest => negb (bad c) && free bad rest
  end.

Definition isDelimiter (c : ascii) : bool := isSeparator c || Ascii.eqb c "=".

(** A key that needs no escaping and holds no delimiter. *)
Definition plain (key : string) : Prop :=
  key <> "" /\ free isDelimiter key = true /\ url.QueryUnescape key = Some key.

End urlquery.

(* ================================================================== *)
(** ** The methods side by side *)

Section EveryMethod.

Context {pkg : Package} {World : Type}.
Variable c : Client World.

(** The decoder finds no field for [key] among [fields]. *)
Definition unknown_to (fields : list json.FieldName) (key : string) : Prop :=
  json.findField fields key = None.

(** The document [b] has no member for the field [name]: it is [null], or
    an object without such a member. *)
Definition lacks (b : json.Body) (name : json.FieldName) : Prop :=
  b = json.Document json.Null \/
  exists members,
    b = json.Document (json.Object members) /\
    Forall (fun member => json.matches name (fst member) = false) members.

(** The one member of the document [b] for the field [name] is the array
    [elems]. *)
Definition has_array (b : json.Body) (name : json.FieldName) (elems : list json.Value) : Prop :=
  exists pre post key,
    b = json.Document (json.Object (pre ++ (key, json.Array elems) :: post)) /\
    json.matches name key = true /\
    Forall (fun member => json.matches name (fst member) = false) (pre ++ post).

(** The first element of [elems] that does not decode into a new [T] fails
    with [err]. *)
Definition first_failure (T : Type) `{json.Unmarshaler T} (elems : list json.Value)
    (err : error) : Prop :=
  exists good bad rest,
    elems = (good ++ bad :: rest)%list /\
    Forall (fun e => exists x : T, json.unmarshal json.zero e = Ok x) good /\
    json.unmarshal (T := T) json.zero bad = Err err.

(** The request URIs of the methods that build them in place. *)
Definition FindArtist_uri (id : ID) : string := baseAddress ++ "artists/" ++ id.

Definition FindArtists_uri (ids : list ID) : string :=
  baseAddress ++ "artists?ids=" ++ strings.Join (toStringSlice ids) ",".

Definition ArtistsTopTracks_uri (artistID : ID) (country : string) : string :=
  baseAddress ++ "artists/" ++ artistID ++ "/top-tracks?country=" ++ country.

Definition FindRelatedArtists_uri (id : ID) : string :=
  baseAddress ++ "artists/" ++ id ++ "/related-artists".

(** What each method makes of the body of a 200 response. *)
Definition decodeArtist (b : json.Body) : result (option FullArtist) :=
  a <- json.Decode (T := FullArtist) b ;; Ok (Some a).

Definition decodeElements {T : Type} `{json.Unmarshaler T} (name : json.FieldName)
    (b : json.Body) : result (list T) :=
  s <- decodeField (T := json.Slice T) name b ;; Ok (json.elements s).

Definition decodeAlbumPage (b : json.Body) : result (option SimpleAlbumPage) :=
  p <- json.Decode (T := rawPage) b ;;
  albums <- json.Unmarshal (T := json.Slice SimpleAlbum) (rp_Items p) ;;
  Ok (Some {| Albums := json.elements albums;
              Endpoint := rp_Endpoint p;
              PageLimit := rp_Limit p;
              PageOffset := rp_Offset p;
              Total := rp_Total p;
              Previous := rp_Previous p;
              Next := rp_Next p |}).

(** The outcome of a method that requests [uri], has [none] as its nil
    value and decodes the body with [decode]. *)
Definition outcome {T : Type} (uri : string) (none : T) (decode : json.Body -> result T)
    (w : World) : returns World T :=
  match http_Get c uri w with
  | (Err err, w') => ((none, Some err), w')
  | (Ok resp, w') =>
      ((if negb (StatusCode resp =? StatusOK)%Z
        then (none, Some (decodeError (Body resp)))
        else match decode (Body resp) with
             | Err err => (none, Some err)
             | Ok v => (v, None)
             end),
       Body_Close c resp w')
  end.

(** A statement about every method of the file: [P] is given the URI that
    the method requests, the nil value of its result type, its decoding of
    the body, and the method itself. *)
Definition for_every_method
    (P : forall T : Type, string -> T -> (json.Body -> result T) -> (World -> returns World T) -> Prop)
  : Prop :=
  (forall id, P _ (FindArtist_uri id) None decodeArtist (FindArtist c id)) /\
  (forall ids,
      P _ (FindArtists_uri ids) [] (decodeElements (field "Artists")) (FindArtists c ids)) /\
  (forall artistID country,
      P _ (ArtistsTopTracks_uri artistID country) [] (decodeElements (field "tracks"))
        (ArtistsTopTracks c artistID country)) /\
  (forall id,
      P _ (FindRelatedArtists_uri id) [] (decodeElements (field "artists"))
        (FindRelatedArtists c id)) /\
  (forall artistID options t,
      P _ (ArtistAlbumsOpt_uri artistID options t) None decodeAlbumPage
        (ArtistAlbumsOpt c artistID options t)) /\
  (forall artistID,
      P _ (ArtistAlbumsOpt_uri artistID None None) None decodeAlbumPage
        (ArtistAlbums c artistID)).

End EveryMethod.

(* ================================================================== *)
(** * Properties *)

(** ** [strconv.Itoa] writes base-10 text *)

Module strconv_facts.
Import strconv.

Lemma ten_cases (d : Z) :
  0 <= d < 10 ->
  d = 0 \/ d = 1 \/ d = 2 \/ d = 3 \/ d = 4 \/ d = 5 \/ d = 6 \/ d = 7 \/ d = 8 \/ d = 9.
Proof. lia. Qed.

Ltac each_digit H :=
  apply ten_cases in H;
  repeat (destruct H as [H | H]; [subst; reflexivity |]); subst; reflexivity.

Lemma digitVal_digit (d : Z) : 0 <= d < 10 -> digitVal (digit d) = Some d.
Proof. intros H. each_digit H. Qed.

Lemma parseDecimal_digit (d : Z) (s : string) :
  0 <= d < 10 ->
  parseDecimal (String (digit d) s) = parseDigits (String (digit d) s) 0.
Proof. intros H. each_digit H. Qed.

Lemma parseDigits_step (d acc : Z) (s : string) :
  0 <= d < 10 ->
  parseDigits (String (digit d) s) acc = parseDigits s (10 * acc + d).
Proof.
  intros H. change (parseDigits (String (digit d) s) acc)
    with (match digitVal (digit d) with
          | Some x => parseDigits s (10 * acc + x)
          | None => None
          end).
  now rewrite (digitVal_digit d H).
Qed.

(** The digits that [formatBits] writes in front of [a] spell [u]. *)
Lemma parseDigits_formatBits (fuel : nat) :
  forall (u : Z) (a : string),
    0 <= u < 10 ^ Z.of_nat (S fuel) ->
    parseDigits (formatBits fuel u a) 0 = parseDigits a u.
Proof.
  induction fuel as [| fuel IH]; intros u a Hu.
  - change (10 ^ Z.of_nat 1) with 10 in Hu.
    cbn [formatBits]. rewrite parseDigits_step by exact Hu. f_equal; lia.
  - cbn [formatBits]. rewrite Nat2Z.inj_succ, Z.pow_succ_r in Hu by lia.
    destruct (Z.leb_spec 10 u) as [Hge | Hlt].
    + rewrite IH.
      * rewrite parseDigits_step by (apply Z.mod_pos_bound; lia).
        f_equal. symmetry. apply Z.div_mod. lia.
      * split; [apply Z.div_pos; lia |].
        apply Z.div_lt_upper_bound; lia.
    + rewrite parseDigits_step by lia. f_equal; lia.
Qed.

(** The text starts with a digit. *)
Lemma formatBits_head (fuel : nat) :
  forall (u : Z) (a : string),
    0 <= u < 10 ^ Z.of_nat (S fuel) ->
    exists d s, 0 <= d < 10 /\ formatBits fuel u a = String (digit d) s.
Proof.
  induction fuel as [| fuel IH]; intros u a Hu; cbn [formatBits].
  - change (10 ^ Z.of_nat 1) with 10 in Hu. now exists u, a.
  - rewrite Nat2Z.inj_succ, Z.pow_succ_r in Hu by lia.
    destruct (Z.leb_spec 10 u) as [Hge | Hlt].
    + apply IH. split; [apply Z.div_pos; lia |].
      apply Z.div_lt_upper_bound; lia.
    + exists u, a. split; [lia | reflexivity].
Qed.

Lemma int_digits (i : Z) : is_int i -> - 10 ^ Z.of_nat 20 < i < 10 ^ Z.of_nat 20.
Proof.
  unfold is_int, int_min, int_max.
  change (10 ^ Z.of_nat 20) with 100000000000000000000.
  change (2 ^ 63) with 9223372036854775808. lia.
Qed.

(** Reading the text of [Itoa i] in base 10 gives [i] back. *)
Lemma parseDecimal_Itoa (i : Z) : is_int i -> parseDecimal (Itoa i) = Some i.
Proof.
  intros Hi. apply int_digits in Hi. unfold Itoa.
  destruct (Z.ltb_spec i 0) as [Hneg | Hpos].
  - assert (Hu : 0 <= - i < 10 ^ Z.of_nat 20) by lia.
    destruct (formatBits_head 19 (- i) "" Hu) as (d & s & Hd & E).
    pose proof (parseDigits_formatBits 19 (- i) "" Hu) as P.
    rewrite E in *. cbn [parseDecimal]. rewrite P. cbn. f_equal. lia.
  - assert (Hu : 0 <= i < 10 ^ Z.of_nat 20) by lia.
    destruct (formatBits_head 19 i "" Hu) as (d & s & Hd & E).
    pose proof (parseDigits_formatBits 19 i "" Hu) as P.
    rewrite E in *. rewrite parseDecimal_digit by exact Hd. exact P.
Qed.

End strconv_facts.

(* ================================================================== *)
(** ** Strings *)

Module string_facts.

Lemma append_nil_r (s : string) : s ++ "" = s.
Proof. induction s as [| c s IH]; cbn; [reflexivity | now rewrite IH]. Qed.

Lemma append_assoc (s t u : string) : (s ++ t) ++ u = s ++ t ++ u.
Proof. induction s as [| c s IH]; cbn; [reflexivity | now rewrite IH]. Qed.

Lemma nonempty_length (s : string) :
  (0 <? Z.of_nat (String.length s))%Z = negb (String.eqb s "").
Proof. destruct s; reflexivity. Qed.

End string_facts.

(* ================================================================== *)
(** ** [url.QueryEscape] and [url.Values.Encode] *)

Module url_facts.
Import url string_facts.

(** One byte of the input: whatever [QueryEscape] writes for it,
    [QueryUnescape] reads that byte back. *)
Lemma QueryUnescape_step (c : ascii) (rest : string) :
  QueryUnescape (QueryEscape (String c rest)) =
  option_map (String c) (QueryUnescape (QueryEscape rest)).
Proof. destruct c as [[] [] [] [] [] [] [] []]; reflexivity. Qed.

(** Percent-encoding loses nothing. *)
Lemma QueryUnescape_QueryEscape (s : string) : QueryUnescape (QueryEscape s) = Some s.
Proof.
  induction s as [| c s IH]; [reflexivity |].
  now rewrite QueryUnescape_step, IH.
Qed.

Lemma writePair_write (prefix buf value : string) :
  writePair prefix buf value = write buf (prefix ++ QueryEscape value).
Proof. unfold writePair, write. now rewrite nonempty_length. Qed.

Lemma fold_writePair (prefix : string) (vs : list string) :
  forall buf,
    fold_left (writePair prefix) vs buf =
    fold_left write (map (fun x => prefix ++ QueryEscape x) vs) buf.
Proof.
  induction vs as [| x vs IH]; intros buf; cbn [fold_left map]; [reflexivity |].
  now rewrite IH, writePair_write.
Qed.

Lemma fold_keys (v : Values) (ks : list string) :
  forall buf,
    fold_left (fun buf k => fold_left (writePair (QueryEscape k ++ "=")) (Get v k) buf)
              ks buf =
    fold_left write
      (flat_map (fun k => map (fun x => QueryEscape k ++ "=" ++ QueryEscape x) (Get v k)) ks)
      buf.
Proof.
  induction ks as [| k ks IH]; intros buf; cbn [fold_left flat_map]; [reflexivity |].
  rewrite fold_left_app, IH. f_equal.
  rewrite fold_writePair. f_equal. apply map_ext. intros x.
  now rewrite append_assoc.
Qed.

Lemma Encode_write (v : Values) : Encode v = fold_left write (pairs v) "".
Proof. apply fold_keys. Qed.

(** Writing non-empty pairs to a non-empty buffer puts ['&'] before each. *)
Lemma fold_write_nonempty (ps : list string) :
  forall c buf,
    Forall (fun p => p <> "") ps ->
    fold_left write ps (String c buf) =
    String c buf ++ match ps with [] => "" | _ => "&" ++ strings.Join ps "&" end.
Proof.
  induction ps as [| p ps IH]; intros c buf Hps.
  - cbn [fold_left]. now rewrite append_nil_r.
  - inversion Hps as [| ? ? Hp Hps']; subst. cbn [fold_left].
    unfold write at 2. cbn [String.eqb negb].
    destruct p as [| d p]; [congruence |].
    rewrite !append_assoc. cbn [append]. rewrite IH by exact Hps'.
    cbn [append]. f_equal. rewrite !append_assoc. f_equal. cbn [append]. f_equal.
    destruct ps as [| q ps]; [now rewrite append_nil_r | reflexivity].
Qed.

Lemma fold_write_Join (ps : list string) :
  Forall (fun p => p <> "") ps -> fold_left write ps "" = strings.Join ps "&".
Proof.
  destruct ps as [| p ps]; intros Hps; [reflexivity |].
  inversion Hps as [| ? ? Hp Hps']; subst. cbn [fold_left].
  destruct p as [| d p]; [congruence |].
  change (write "" (String d p)) with (String d p).
  rewrite fold_write_nonempty by exact Hps'.
  destruct ps as [| q ps]; [now rewrite append_nil_r | reflexivity].
Qed.

Lemma pairs_nonempty (v : Values) : Forall (fun p => p <> "") (pairs v).
Proof.
  apply Forall_forall. intros p Hp. unfold pairs in Hp.
  apply in_flat_map in Hp. destruct Hp as (k & _ & Hp).
  apply in_map_iff in Hp. destruct Hp as (x & <- & _).
  destruct (QueryEscape k); discriminate.
Qed.

(** The query string is the pairs joined by ['&']. *)
Lemma Encode_Join (v : Values) : Encode v = strings.Join (pairs v) "&".
Proof. rewrite Encode_write. apply fold_write_Join, pairs_nonempty. Qed.

(** *** The order of the map does not matter *)

Lemma leb_trans (a : string) :
  forall b c, String.leb a b = true -> String.leb b c = true -> String.leb a c = true.
Proof.
  unfold String.leb.
  induction a as [| x a IH]; intros [| y b] [| z c]; cbn [String.compare];
    try reflexivity; try discriminate.
  unfold Ascii.compare.
  destruct (N.compare_spec (N_of_ascii x) (N_of_ascii y)) as [Exy | Lxy | Gxy];
    destruct (N.compare_spec (N_of_ascii y) (N_of_ascii z)) as [Eyz | Lyz | Gyz];
    destruct (N.compare_spec (N_of_ascii x) (N_of_ascii z)) as [Exz | Lxz | Gxz];
    try discriminate; try reflexivity; try lia.
  apply IH.
Qed.

Lemma insertKey_comm (a b : string) (l : list string) :
  insertKey a (insertKey b l) = insertKey b (insertKey a l).
Proof.
  induction l as [| c l IH]; cbn [insertKey].
  - destruct (String.leb a b) eqn:Eab, (String.leb b a) eqn:Eba; try reflexivity.
    + now rewrite (String.leb_antisym _ _ Eab Eba).
    + destruct (String.leb_total a b); congruence.
  - destruct (String.leb b c) eqn:Ebc, (String.leb a c) eqn:Eac; cbn [insertKey];
      rewrite ?Ebc, ?Eac.
    + destruct (String.leb a b) eqn:Eab, (String.leb b a) eqn:Eba; try reflexivity.
      * now rewrite (String.leb_antisym _ _ Eab Eba).
      * destruct (String.leb_total a b); congruence.
    + destruct (String.leb a b) eqn:Eab.
      * now rewrite (leb_trans _ _ _ Eab Ebc) in Eac.
      * reflexivity.
    + destruct (String.leb b a) eqn:Eba.
      * now rewrite (leb_trans _ _ _ Eba Eac) in Ebc.
      * reflexivity.
    + now rewrite IH.
Qed.

Lemma sortStrings_Permutation (l l' : list string) :
  Permutation l l' -> sortStrings l = sortStrings l'.
Proof.
  unfold sortStrings.
  induction 1 as [| x l l' _ IH | x y l | l l' l'' _ IH1 _ IH2]; cbn [fold_right].
  - reflexivity.
  - now rewrite IH.
  - apply insertKey_comm.
  - now rewrite IH1.
Qed.

Lemma Get_absent (v : Values) (k : string) : ~ In k (map fst v) -> Get v k = [].
Proof.
  induction v as [| [k' vs] v IH]; cbn [Get map fst In]; intros H; [reflexivity |].
  destruct (String.eqb_spec k' k) as [-> | _]; [tauto |].
  apply IH. tauto.
Qed.

Lemma Get_Permutation (v v' : Values) (k : string) :
  NoDup (map fst v) -> Permutation v v' -> Get v k = Get v' k.
Proof.
  intros Hnd Hp. revert Hnd.
  induction Hp as [| [k1 x1] l l' Hp IH | [k1 x1] [k2 x2] l | l l' l'' Hp1 IH1 Hp2 IH2];
    intros Hnd; cbn [Get].
  - reflexivity.
  - inversion Hnd; subst. now rewrite IH.
  - cbn [map fst] in Hnd. inversion Hnd as [| ? ? Hnotin _]; subst.
    destruct (String.eqb_spec k1 k) as [-> | _], (String.eqb_spec k2 k) as [-> | _];
      try reflexivity.
    exfalso. apply Hnotin. now left.
  - rewrite IH1 by exact Hnd. apply IH2.
    eapply Permutation_NoDup; [apply Permutation_map, Hp1 | exact Hnd].
Qed.

(** A query string does not depend on the iteration order of the map. *)
Lemma Encode_Permutation (v v' : Values) :
  NoDup (map fst v) -> Permutation v v' -> Encode v = Encode v'.
Proof.
  intros Hnd Hp. rewrite !Encode_Join. f_equal. unfold pairs.
  rewrite <- (sortStrings_Permutation (map fst v) (map fst v'))
    by now apply Permutation_map.
  apply flat_map_ext. intros k.
  now rewrite (Get_Permutation v v' k Hnd Hp).
Qed.

End url_facts.

(* ================================================================== *)
(** ** The query string of [ArtistAlbumsOpt] *)

Section QueryBuilder.

Context {pkg : Package}.

(** The pairs of the map that [ArtistAlbumsOpt] builds are the expected
    parameters, whatever is set. *)
Lemma pairs_ArtistAlbumsOpt_values (options : Options) (t : option AlbumType) :
  url.pairs (ArtistAlbumsOpt_values options t) = expectedParams options t.
Proof.
  destruct options as [[country |] [limit |] [offset |]], t as [t |]; reflexivity.
Qed.

Lemma ArtistAlbumsOpt_query_Join (options : Options) (t : option AlbumType) :
  ArtistAlbumsOpt_query options t = strings.Join (expectedParams options t) "&".
Proof.
  unfold ArtistAlbumsOpt_query.
  now rewrite url_facts.Encode_Join, pairs_ArtistAlbumsOpt_values.
Qed.

(** The map holds each key once. *)
Lemma ArtistAlbumsOpt_values_NoDup (options : Options) (t : option AlbumType) :
  NoDup (map fst (ArtistAlbumsOpt_values options t)).
Proof.
  destruct options as [[country |] [limit |] [offset |]], t as [t |];
    cbn; repeat constructor; cbn; intuition discriminate.
Qed.

(** The market is always one of the parameters, so the query string is
    never empty and is always appended. *)
Lemma ArtistAlbumsOpt_query_nonempty (options : Options) (t : option AlbumType) :
  String.eqb (ArtistAlbumsOpt_query options t) "" = false.
Proof.
  rewrite ArtistAlbumsOpt_query_Join.
  destruct options as [[country |] [limit |] [offset |]], t as [t |]; reflexivity.
Qed.

Lemma ArtistAlbumsOpt_uri_options (artistID : ID) (options : Options) (t : option AlbumType) :
  ArtistAlbumsOpt_uri artistID (Some options) t =
  baseAddress ++ "artists/" ++ artistID ++ "/albums" ++ "?" ++ ArtistAlbumsOpt_query options t.
Proof.
  unfold ArtistAlbumsOpt_uri. rewrite ArtistAlbumsOpt_query_nonempty. cbn [negb].
  now rewrite !string_facts.append_assoc.
Qed.

(** C1: when [options] is not nil and its [Country] is nil, the map holds
    the fallback country code under [market], the query string is the
    ['&']-join of parameters one of which is [market=] followed by the
    (percent-encoded) fallback code, and that query string is appended to
    the request URI. *)
Theorem ArtistAlbumsOpt_market_fallback (artistID : ID) (options : Options)
    (t : option AlbumType) :
  Country options = None ->
  url.Get (ArtistAlbumsOpt_values options t) "market" = [CountryUSA] /\
  In ("market=" ++ url.QueryEscape CountryUSA) (url.pairs (ArtistAlbumsOpt_values options t)) /\
  ArtistAlbumsOpt_query options t =
    strings.Join (url.pairs (ArtistAlbumsOpt_values options t)) "&" /\
  ArtistAlbumsOpt_uri artistID (Some options) t =
    baseAddress ++ "artists/" ++ artistID ++ "/albums" ++ "?" ++ ArtistAlbumsOpt_query options t.
Proof.
  intros Hc. split; [| split; [| split]].
  - destruct options as [country [limit |] [offset |]], t as [t |];
      cbn in Hc; subst; reflexivity.
  - rewrite pairs_ArtistAlbumsOpt_values. unfold expectedParams. rewrite Hc.
    apply in_or_app. right. apply in_or_app. right. now left.
  - apply url_facts.Encode_Join.
  - apply ArtistAlbumsOpt_uri_options.
Qed.

(** C2, as amended: with an [options] value in which nothing is set and no
    album type, the query string is exactly the market parameter with the
    fallback country code, and it is appended to the URI; with a nil
    [options] nothing is appended, whatever the album type. *)
Theorem ArtistAlbumsOpt_no_options_query (artistID : ID) (t : option AlbumType) :
  ArtistAlbumsOpt_query no_options None = "market=" ++ url.QueryEscape CountryUSA /\
  ArtistAlbumsOpt_uri artistID (Some no_options) None =
    baseAddress ++ "artists/" ++ artistID ++ "/albums" ++ "?market=" ++ url.QueryEscape CountryUSA /\
  ArtistAlbumsOpt_uri artistID None t = baseAddress ++ "artists/" ++ artistID ++ "/albums".
Proof.
  split; [| split].
  - now rewrite ArtistAlbumsOpt_query_Join.
  - rewrite ArtistAlbumsOpt_uri_options, ArtistAlbumsOpt_query_Join. reflexivity.
  - reflexivity.
Qed.

(** C8: for an [options] value that is not nil, the query string is the
    ['&']-join of exactly the parameters that were set and of the market
    (with its fallback), each value percent-encoded, in the order of the
    keys; it is the same for every iteration order of the map; and the text
    of the limit and of the offset reads back, in base 10, as the number
    that was set. *)
Theorem ArtistAlbumsOpt_query_exact (options : Options) (t : option AlbumType) :
  (forall l, Limit options = Some l -> is_int l) ->
  (forall o, Offset options = Some o -> is_int o) ->
  ArtistAlbumsOpt_query options t = strings.Join (expectedParams options t) "&" /\
  (forall values, Permutation (ArtistAlbumsOpt_values options t) values ->
                  url.Encode values = ArtistAlbumsOpt_query options t) /\
  (forall value, url.QueryUnescape (url.QueryEscape value) = Some value) /\
  (forall l, Limit options = Some l -> strconv.parseDecimal (strconv.Itoa l) = Some l) /\
  (forall o, Offset options = Some o -> strconv.parseDecimal (strconv.Itoa o) = Some o).
Proof.
  intros Hl Ho. split; [| split; [| split; [| split]]].
  - apply ArtistAlbumsOpt_query_Join.
  - intros values Hp. symmetry.
    apply url_facts.Encode_Permutation; [apply ArtistAlbumsOpt_values_NoDup | exact Hp].
  - apply url_facts.QueryUnescape_QueryEscape.
  - intros l E. apply strconv_facts.parseDecimal_Itoa, Hl, E.
  - intros o E. apply strconv_facts.parseDecimal_Itoa, Ho, E.
Qed.

End QueryBuilder.

(* ================================================================== *)
(** ** Decoding arrays and objects *)

Module json_facts.

Section MapM.

Context {A B : Type} (f : A -> result B).

Lemma mapM_length (l : list A) :
  forall r, mapM f l = Ok r -> List.length r = List.length l.
Proof.
  induction l as [| a l IH]; cbn [mapM]; intros r E.
  - now inversion E.
  - destruct (f a) as [b | e]; cbn [bind] in E; [| discriminate].
    destruct (mapM f l) as [bs | e]; cbn [bind] in E; [| discriminate].
    inversion E; subst. cbn [List.length]. now rewrite (IH bs).
Qed.

(** The results are in the order of the inputs. *)
Lemma mapM_nth_error (l : list A) :
  forall r i a,
    mapM f l = Ok r -> nth_error l i = Some a ->
    exists b, f a = Ok b /\ nth_error r i = Some b.
Proof.
  induction l as [| a0 l IH]; cbn [mapM]; intros r i a E Hi.
  - destruct i; discriminate.
  - destruct (f a0) as [b0 | e] eqn:E0; cbn [bind] in E; [| discriminate].
    destruct (mapM f l) as [bs | e]; cbn [bind] in E; [| discriminate].
    inversion E; subst. destruct i as [| i]; cbn [nth_error] in *.
    + inversion Hi; subst. now exists b0.
    + now apply IH.
Qed.

Lemma mapM_total (l : list A) :
  Forall (fun a => exists b, f a = Ok b) l -> exists r, mapM f l = Ok r.
Proof.
  induction 1 as [| a l [b Hb] _ [r Hr]]; cbn [mapM].
  - now exists [].
  - exists (b :: r). now rewrite Hb, Hr.
Qed.

End MapM.

Section Struct.

Context {T : Type} (setField : T -> string -> json.Value -> result T).

(** Members whose key matches no field leave the struct as it is. *)
Lemma fold_ignored (members : list (string * json.Value)) :
  forall cur,
    Forall (fun kv => forall st, setField st (fst kv) (snd kv) = Ok st) members ->
    fold_left (json.store setField) members (Ok cur) = Ok cur.
Proof.
  induction members as [| kv members IH]; intros cur H; cbn [fold_left]; [reflexivity |].
  inversion H as [| ? ? Hkv Hrest]; subst.
  unfold json.store at 2. cbn [bind]. rewrite Hkv. now apply IH.
Qed.

(** An object in which one member is stored and the others are ignored. *)
Lemma unmarshalStruct_one (goType : string) (cur : T)
    (pre post : list (string * json.Value)) (key : string) (v : json.Value) :
  Forall (fun kv => forall st, setField st (fst kv) (snd kv) = Ok st) (pre ++ post) ->
  json.unmarshalStruct goType setField cur (json.Object (pre ++ (key, v) :: post)) =
  match setField cur key v with
  | Ok x => Ok x
  | Err e => fold_left (json.store setField) post (Err e)
  end.
Proof.
  intros H. apply Forall_app in H. destruct H as [Hpre Hpost].
  cbn [json.unmarshalStruct].
  rewrite fold_left_app, fold_ignored by exact Hpre.
  cbn [fold_left]. unfold json.store at 2. cbn [bind fst snd].
  destruct (setField cur key v) as [x | e]; [| reflexivity].
  now apply fold_ignored.
Qed.

End Struct.

Section LastWins.

Context {T X : Type} (setField : T -> string -> json.Value -> result T).
Context (proj : T -> X) (sel : string -> bool) (v : json.Value) (want : X).

Hypothesis hit :
  forall st key st', sel key = true -> setField st key v = Ok st' -> proj st' = want.
Hypothesis miss :
  forall st key u st', sel key = false -> setField st key u = Ok st' -> proj st' = proj st.

Lemma fold_Err (members : list (string * json.Value)) (e : error) :
  fold_left (json.store setField) members (Err e) = Err e.
Proof. induction members as [| m members IH]; [reflexivity | exact IH]. Qed.

Lemma fold_preserves (post : list (string * json.Value)) :
  forall st p,
    Forall (fun member => sel (fst member) = false) post ->
    fold_left (json.store setField) post (Ok st) = Ok p -> proj p = proj st.
Proof.
  induction post as [| m post IH]; intros st p Hpost E; cbn [fold_left] in E.
  - now inversion E.
  - inversion Hpost as [| ? ? Hm Hrest]; subst.
    unfold json.store at 2 in E. cbn [bind] in E.
    destruct (setField st (fst m) (snd m)) as [st' |] eqn:Em.
    + rewrite (IH st' p Hrest E). eapply miss; eassumption.
    + rewrite fold_Err in E. discriminate.
Qed.

(** The field holds what the last member that selects it stored. *)
Lemma last_member_wins (goType : string) (cur p : T)
    (pre post : list (string * json.Value)) (key : string) :
  sel key = true ->
  Forall (fun member => sel (fst member) = false) post ->
  json.unmarshalStruct goType setField cur (json.Object (pre ++ (key, v) :: post)) = Ok p ->
  proj p = want.
Proof.
  intros Hkey Hpost E.
  cbn [json.unmarshalStruct] in E. rewrite fold_left_app in E.
  destruct (fold_left (json.store setField) pre (Ok cur)) as [st1 | e1].
  - cbn [fold_left] in E. unfold json.store at 2 in E. cbn [bind fst snd] in E.
    destruct (setField st1 key v) as [st2 | e2] eqn:E2.
    + rewrite (fold_preserves post st2 p Hpost E). eapply hit; eassumption.
    + rewrite fold_Err in E. discriminate.
  - rewrite fold_Err in E. discriminate.
Qed.

End LastWins.

Section Slices.

Context {T : Type} `{json.Unmarshaler T}.

(** Into a slice without backing, every element is stored into a new
    element. *)
Lemma decodeElems_fresh (store : T -> json.Value -> result T) (fresh : T)
    (elems : list json.Value) :
  json.decodeElems store fresh [] elems = mapM (store fresh) elems.
Proof.
  induction elems as [| e elems IH]; cbn [json.decodeElems mapM tl]; [reflexivity |].
  now rewrite IH.
Qed.

(** The elements of an array that is stored into the nil slice. *)
Lemma elements_fresh (elems : list json.Value) :
  (s <- json.unmarshal (T := json.Slice T) json.zero (json.Array elems) ;;
   Ok (json.elements s))
  = mapM (json.unmarshal (T := T) json.zero) elems.
Proof.
  destruct elems as [| e elems]; [reflexivity |].
  cbn [json.unmarshal json.slice_Unmarshaler json.zero json.nilSlice json.backing].
  rewrite decodeElems_fresh.
  destruct (mapM (json.unmarshal json.zero) (e :: elems)) as [xs | err] eqn:E; [| reflexivity].
  cbn [bind]. unfold json.elements. cbn [json.len json.backing].
  rewrite <- (mapM_length _ _ _ E).
  now rewrite skipn_nil, app_nil_r, firstn_all.
Qed.

Lemma elements_null :
  (s <- json.unmarshal (T := json.Slice T) json.zero json.Null ;; Ok (json.elements s))
  = Ok [].
Proof. reflexivity. Qed.

End Slices.

End json_facts.

(* ================================================================== *)
(** ** Decoding the page envelope *)

Module rawPage_facts.

(** The cases of the index that [findField] returns for a key. *)
Ltac split_index i Hk n :=
  match n with
  | O => cbn in Hk; try rewrite nth_error_nil in Hk
  | S ?m => let j := fresh "j" in destruct i as [| j]; [cbn in Hk | split_index j Hk m]
  end.

Ltac index_cases Hk E key :=
  unfold json.selectsb in Hk; unfold rawPage_setField in E;
  remember (json.findField rawPage_fields key) as found eqn:Hfound; clear Hfound;
  let i := fresh "i" in
  destruct found as [i |]; [split_index i Hk 7%nat |].

Ltac other_field :=
  let E := fresh "E" in
  intros [f_e f_l f_n f_o f_p f_t f_i] f_key f_u f_st Hk E;
  index_cases Hk E f_key; try discriminate Hk;
  try match type of E with
      | bind ?r _ = _ => destruct r; cbn [bind] in E; [| discriminate]
      end;
  inversion E; reflexivity.

Ltac this_field :=
  let E := fresh "E" in
  intros [f_e f_l f_n f_o f_p f_t f_i] f_key f_st Hk E;
  index_cases Hk E f_key; try discriminate Hk;
  cbn in E;
  repeat match type of E with
         | context [if ?b then _ else _] => destruct b; cbn in E
         end;
  inversion E; reflexivity.

Ltac by_last_member proj name v want Hm E :=
  let pre := fresh "pre" in let post := fresh "post" in let key := fresh "key" in
  let Hb := fresh "Hb" in let Hkey := fresh "Hkey" in let Hpost := fresh "Hpost" in
  destruct Hm as (pre & post & key & Hb & Hkey & Hpost);
  rewrite Hb in E; cbn [json.Decode json.unmarshal rawPage_json] in E;
  exact (json_facts.last_member_wins rawPage_setField proj
           (fun k => json.selectsb rawPage_fields k name) v want
           ltac:(this_field) ltac:(other_field) "rawPage" json.zero _ pre post key
           Hkey Hpost E).

Section Fields.

Variables (b : json.Body) (p : rawPage).
Hypothesis decoded : json.Decode b = Ok p.

Lemma rp_Total_member (n : Z) :
  json.member_is rawPage_fields b "total" (json.Number n) -> rp_Total p = n.
Proof. intros Hm. by_last_member rp_Total "total" (json.Number n) n Hm decoded. Qed.

Lemma rp_Limit_member (n : Z) :
  json.member_is rawPage_fields b "limit" (json.Number n) -> rp_Limit p = n.
Proof. intros Hm. by_last_member rp_Limit "limit" (json.Number n) n Hm decoded. Qed.

Lemma rp_Offset_member (n : Z) :
  json.member_is rawPage_fields b "offset" (json.Number n) -> rp_Offset p = n.
Proof. intros Hm. by_last_member rp_Offset "offset" (json.Number n) n Hm decoded. Qed.

Lemma rp_Endpoint_member (s : string) :
  json.member_is rawPage_fields b "href" (json.Str s) -> rp_Endpoint p = s.
Proof. intros Hm. by_last_member rp_Endpoint "href" (json.Str s) s Hm decoded. Qed.

Lemma rp_Next_member (s : string) :
  json.member_is rawPage_fields b "next" (json.Str s) -> rp_Next p = s.
Proof. intros Hm. by_last_member rp_Next "next" (json.Str s) s Hm decoded. Qed.

Lemma rp_Previous_member (s : string) :
  json.member_is rawPage_fields b "previous" (json.Str s) -> rp_Previous p = s.
Proof. intros Hm. by_last_member rp_Previous "previous" (json.Str s) s Hm decoded. Qed.

Lemma rp_Items_member (v : json.Value) :
  json.member_is rawPage_fields b "items" v -> rp_Items p = Some v.
Proof. intros Hm. by_last_member rp_Items "items" v (Some v) Hm decoded. Qed.

End Fields.

End rawPage_facts.

(* ================================================================== *)
(** ** Decoding a struct with one field *)

Module decodeField_facts.

Section OneField.

Context {T : Type} `{json.Unmarshaler T} (name : json.FieldName).

Lemma field_setField_other (key : string) :
  json.matches name key = false ->
  forall (st : T) (v : json.Value), field_setField name st key v = Ok st.
Proof. intros E st v. unfold field_setField. now rewrite E. Qed.

Lemma others_ignored (members : list (string * json.Value)) :
  Forall (fun member => json.matches name (fst member) = false) members ->
  Forall (fun kv => forall st : T, field_setField name st (fst kv) (snd kv) = Ok st) members.
Proof.
  intros Hm. eapply Forall_impl; [| exact Hm].
  intros [k v] E st. now apply field_setField_other.
Qed.

(** Without a member for the field, the field keeps its zero value. *)
Lemma decodeField_missing (members : list (string * json.Value)) :
  Forall (fun member => json.matches name (fst member) = false) members ->
  decodeField (T := T) name (json.Document (json.Object members)) = Ok json.zero.
Proof.
  intros Hm. unfold decodeField. cbn [json.unmarshalStruct].
  apply json_facts.fold_ignored. now apply others_ignored.
Qed.

(** With one member for the field, the field holds what that member
    stored in the zero value. *)
Lemma decodeField_one (pre post : list (string * json.Value)) (key : string)
    (v : json.Value) :
  json.matches name key = true ->
  Forall (fun member => json.matches name (fst member) = false) (pre ++ post) ->
  decodeField (T := T) name (json.Document (json.Object (pre ++ (key, v) :: post)))
  = json.unmarshal json.zero v.
Proof.
  intros Hkey Hothers. unfold decodeField.
  rewrite json_facts.unmarshalStruct_one by now apply others_ignored.
  unfold field_setField at 1. rewrite Hkey.
  destruct (json.unmarshal json.zero v) as [x | e]; [reflexivity |].
  apply (json_facts.fold_Err (field_setField name)).
Qed.

End OneField.

(** The elements of the one array member are stored into new elements, in
    order. *)
Lemma decodeField_array {T : Type} `{json.Unmarshaler T} (name : json.FieldName)
    (pre post : list (string * json.Value)) (key : string) (elems : list json.Value) :
  json.matches name key = true ->
  Forall (fun member => json.matches name (fst member) = false) (pre ++ post) ->
  (s <- decodeField (T := json.Slice T) name
          (json.Document (json.Object (pre ++ (key, json.Array elems) :: post))) ;;
   Ok (json.elements s))
  = mapM (json.unmarshal (T := T) json.zero) elems.
Proof.
  intros Hkey Hothers. rewrite decodeField_one by assumption.
  apply json_facts.elements_fresh.
Qed.

End decodeField_facts.

(* ================================================================== *)
(** ** The endpoint methods *)

Section Methods.

Context {pkg : Package} {World : Type}.
Variable c : Client World.

Ltac run_method H :=
  unfold FindArtist, FindArtists, ArtistsTopTracks, FindRelatedArtists,
         ArtistAlbums, ArtistAlbumsOpt;
  rewrite H; unfold deferred.

(** C6: when the transport's GET fails, each method returns nil and the
    error of the transport as it is; nothing is decoded and the world is
    left as that one GET left it: no second request is made and no body is
    closed. *)
Theorem transport_error_unchanged (err : error) (w w' : World) :
  (forall id,
      http_Get c (baseAddress ++ "artists/" ++ id) w = (Err err, w') ->
      FindArtist c id w = ((None, Some err), w')) /\
  (forall ids,
      http_Get c (baseAddress ++ "artists?ids=" ++ strings.Join (toStringSlice ids) ",") w
        = (Err err, w') ->
      FindArtists c ids w = (([], Some err), w')) /\
  (forall artistID country,
      http_Get c (baseAddress ++ "artists/" ++ artistID ++ "/top-tracks?country=" ++ country) w
        = (Err err, w') ->
      ArtistsTopTracks c artistID country w = (([], Some err), w')) /\
  (forall id,
      http_Get c (baseAddress ++ "artists/" ++ id ++ "/related-artists") w = (Err err, w') ->
      FindRelatedArtists c id w = (([], Some err), w')) /\
  (forall artistID options t,
      http_Get c (ArtistAlbumsOpt_uri artistID options t) w = (Err err, w') ->
      ArtistAlbumsOpt c artistID options t w = ((None, Some err), w')) /\
  (forall artistID,
      http_Get c (ArtistAlbumsOpt_uri artistID None None) w = (Err err, w') ->
      ArtistAlbums c artistID w = ((None, Some err), w')).
Proof.
  repeat match goal with |- _ /\ _ => split end; intros; run_method H; reflexivity.
Qed.

Lemma not_success_not_OK (status : Z) :
  ~ success status -> negb (status =? StatusOK)%Z = true.
Proof.
  unfold success, StatusOK. intros H.
  destruct (Z.eqb_spec status 200); [lia | reflexivity].
Qed.

(** [FindArtist] never returns a nil artist together with a nil error. *)
Lemma FindArtist_value_or_error (id : ID) (w : World) :
  fst (FindArtist c id w) <> (None, None).
Proof.
  unfold FindArtist, deferred.
  destruct (http_Get c (baseAddress ++ "artists/" ++ id) w) as [[resp | err] w'];
    cbn [fst]; [| discriminate].
  destruct (negb (StatusCode resp =? StatusOK)%Z); [discriminate |].
  destruct (json.Decode (Body resp)); discriminate.
Qed.

(** C3: when the status of the response is not a 2xx status, each method
    returns nil and the error that [decodeError] makes of the body, and closes
    the body; the body is not decoded as a result.  So a lookup with
    [FindArtist] that the service answers with such a status returns an error
    that is not nil. *)
Theorem non_success_status_returns_decodeError (resp : Response) (w w' : World) :
  ~ success (StatusCode resp) ->
  (forall id,
      http_Get c (baseAddress ++ "artists/" ++ id) w = (Ok resp, w') ->
      FindArtist c id w = ((None, Some (decodeError (Body resp))), Body_Close c resp w') /\
      snd (fst (FindArtist c id w)) <> None) /\
  (forall ids,
      http_Get c (baseAddress ++ "artists?ids=" ++ strings.Join (toStringSlice ids) ",") w
        = (Ok resp, w') ->
      FindArtists c ids w = (([], Some (decodeError (Body resp))), Body_Close c resp w')) /\
  (forall artistID country,
      http_Get c (baseAddress ++ "artists/" ++ artistID ++ "/top-tracks?country=" ++ country) w
        = (Ok resp, w') ->
      ArtistsTopTracks c artistID country w
        = (([], Some (decodeError (Body resp))), Body_Close c resp w')) /\
  (forall id,
      http_Get c (baseAddress ++ "artists/" ++ id ++ "/related-artists") w = (Ok resp, w') ->
      FindRelatedArtists c id w = (([], Some (decodeError (Body resp))), Body_Close c resp w')) /\
  (forall artistID options t,
      http_Get c (ArtistAlbumsOpt_uri artistID options t) w = (Ok resp, w') ->
      ArtistAlbumsOpt c artistID options t w
        = ((None, Some (decodeError (Body resp))), Body_Close c resp w')) /\
  (forall artistID,
      http_Get c (ArtistAlbumsOpt_uri artistID None None) w = (Ok resp, w') ->
      ArtistAlbums c artistID w = ((None, Some (decodeError (Body resp))), Body_Close c resp w')).
Proof.
  intros Hs. apply not_success_not_OK in Hs.
  split; [| repeat match goal with |- _ /\ _ => split end];
    intros; run_method H; rewrite Hs; try reflexivity.
  split; [reflexivity | discriminate].
Qed.

(** C7: [ArtistAlbums] returns what [ArtistAlbumsOpt] returns without
    options and without album type, for every transport and every state of
    the world, and the URI that is requested then has no query string. *)
Theorem ArtistAlbums_is_ArtistAlbumsOpt_nil (artistID : ID) (w : World) :
  ArtistAlbums c artistID w = ArtistAlbumsOpt c artistID None None w /\
  ArtistAlbumsOpt_uri artistID None None = baseAddress ++ "artists/" ++ artistID ++ "/albums".
Proof. split; reflexivity. Qed.

(** C10: without options the album type is ignored: the URI has no query
    string, hence no [album_type] parameter, and the call returns what the
    call without album type returns. *)
Theorem ArtistAlbumsOpt_nil_options_ignores_type (artistID : ID) (t : AlbumType) (w : World) :
  ArtistAlbumsOpt_uri artistID None (Some t) = baseAddress ++ "artists/" ++ artistID ++ "/albums" /\
  ArtistAlbumsOpt c artistID None (Some t) w = ArtistAlbumsOpt c artistID None None w.
Proof. split; reflexivity. Qed.

Lemma status_OK (resp : Response) :
  StatusCode resp = StatusOK -> negb (StatusCode resp =? StatusOK)%Z = false.
Proof. intros ->. reflexivity. Qed.

(** C4: when the response has status 200, its body decodes into the
    envelope [p] and the items of [p] decode into [albums], [ArtistAlbumsOpt]
    returns a page with the endpoint, limit, offset, total, next and previous
    of the envelope and with [albums] as its items.  These are the values of
    the JSON body: the total, limit, offset, href, next and previous are those
    of the members that the decoder stores in these fields, and for an [items]
    member that is an array the albums are as many as its elements, the i-th
    album being the decoding of the i-th element. *)
Theorem ArtistAlbumsOpt_typed_page (artistID : ID) (options : option Options)
    (t : option AlbumType) (w w' : World) (resp : Response) (p : rawPage)
    (albums : json.Slice SimpleAlbum) :
  http_Get c (ArtistAlbumsOpt_uri artistID options t) w = (Ok resp, w') ->
  StatusCode resp = StatusOK ->
  json.Decode (Body resp) = Ok p ->
  json.Unmarshal (rp_Items p) = Ok albums ->
  exists page,
    ArtistAlbumsOpt c artistID options t w = ((Some page, None), Body_Close c resp w') /\
    (Endpoint page = rp_Endpoint p /\ PageLimit page = rp_Limit p /\
     PageOffset page = rp_Offset p /\ Total page = rp_Total p /\
     Next page = rp_Next p /\ Previous page = rp_Previous p /\
     Albums page = json.elements albums) /\
    (forall n, json.member_is rawPage_fields (Body resp) "total" (json.Number n) ->
               Total page = n) /\
    (forall n, json.member_is rawPage_fields (Body resp) "limit" (json.Number n) ->
               PageLimit page = n) /\
    (forall n, json.member_is rawPage_fields (Body resp) "offset" (json.Number n) ->
               PageOffset page = n) /\
    (forall s, json.member_is rawPage_fields (Body resp) "href" (json.Str s) ->
               Endpoint page = s) /\
    (forall s, json.member_is rawPage_fields (Body resp) "next" (json.Str s) ->
               Next page = s) /\
    (forall s, json.member_is rawPage_fields (Body resp) "previous" (json.Str s) ->
               Previous page = s) /\
    (forall elems,
        json.member_is rawPage_fields (Body resp) "items" (json.Array elems) ->
        List.length (Albums page) = List.length elems /\
        forall i e, nth_error elems i = Some e ->
                    exists a, json.unmarshal json.zero e = Ok a /\
                              nth_error (Albums page) i = Some a).
Proof.
  intros Hget Hstatus Hp Halbums. eexists. split.
  { run_method Hget. rewrite (status_OK _ Hstatus), Hp, Halbums. reflexivity. }
  cbn [Endpoint PageLimit PageOffset Total Next Previous Albums].
  split; [repeat split |].
  split; [intros n; apply (rawPage_facts.rp_Total_member _ _ Hp) |].
  split; [intros n; apply (rawPage_facts.rp_Limit_member _ _ Hp) |].
  split; [intros n; apply (rawPage_facts.rp_Offset_member _ _ Hp) |].
  split; [intros s; apply (rawPage_facts.rp_Endpoint_member _ _ Hp) |].
  split; [intros s; apply (rawPage_facts.rp_Next_member _ _ Hp) |].
  split; [intros s; apply (rawPage_facts.rp_Previous_member _ _ Hp) |].
  intros elems Hitems.
  rewrite (rawPage_facts.rp_Items_member _ _ Hp _ Hitems) in Halbums.
  assert (Hm : mapM (json.unmarshal (T := SimpleAlbum) json.zero) elems
               = Ok (json.elements albums)).
  { rewrite <- json_facts.elements_fresh. unfold json.Unmarshal in Halbums.
    now rewrite Halbums. }
  split.
  - eapply json_facts.mapM_length, Hm.
  - intros i e Hi. eapply json_facts.mapM_nth_error; eassumption.
Qed.

(** Storing a JSON value through a nil pointer: [null] leaves nil, any
    other value is decoded into a new pointee. *)
Lemma pointer_unmarshal {T : Type} `{json.Unmarshaler T} (e : json.Value) (x : option T) :
  json.unmarshal (T := option T) json.zero e = Ok x ->
  (e = json.Null /\ x = None) \/
  (e <> json.Null /\ exists a, json.unmarshal (T := T) json.zero e = Ok a /\ x = Some a).
Proof.
  destruct e; cbn; intros E;
    try (left; split; [reflexivity | congruence]);
    right; (split; [discriminate |]);
    match type of E with
    | bind ?r _ = _ => destruct r as [a | err] eqn:Ea; cbn in E; [| discriminate]
    end; exists a; (split; [reflexivity | congruence]).
Qed.

Lemma pointer_unmarshal_total {T : Type} `{json.Unmarshaler T} (e : json.Value) :
  e = json.Null \/ (exists a, json.unmarshal (T := T) json.zero e = Ok a) ->
  exists x, json.unmarshal (T := option T) json.zero e = Ok x.
Proof.
  intros [-> | [a Ha]]; [now exists None |].
  destruct e; cbn in *; try (rewrite Ha; cbn); eauto.
Qed.

(** C5: when the response has status 200 and its body is an object whose
    one member for the field [Artists] is an array in which every element is
    [null] or a well-formed artist, [FindArtists] returns a sequence as long
    as the array, in the order of the array: nil where the element is [null],
    the decoded artist elsewhere, and equal entries for equal elements.  The
    identifiers are sent in the order given, duplicates included. *)
Theorem FindArtists_preserves_order (ids : list ID) (w w' : World) (resp : Response)
    (pre post : list (string * json.Value)) (key : string) (elems : list json.Value) :
  http_Get c (baseAddress ++ "artists?ids=" ++ strings.Join ids ",") w = (Ok resp, w') ->
  StatusCode resp = StatusOK ->
  Body resp = json.Document (json.Object (pre ++ (key, json.Array elems) :: post)) ->
  json.matches (field "Artists") key = true ->
  Forall (fun member => json.matches (field "Artists") (fst member) = false) (pre ++ post) ->
  Forall (fun e => e = json.Null \/
                   exists a : FullArtist, json.unmarshal json.zero e = Ok a) elems ->
  exists artists,
    FindArtists c ids w = ((artists, None), Body_Close c resp w') /\
    List.length artists = List.length elems /\
    (forall i e, nth_error elems i = Some e ->
       (e = json.Null -> nth_error artists i = Some None) /\
       (e <> json.Null ->
        exists a : FullArtist,
          json.unmarshal json.zero e = Ok a /\ nth_error artists i = Some (Some a))) /\
    (forall i j e, nth_error elems i = Some e -> nth_error elems j = Some e ->
                   nth_error artists i = nth_error artists j).
Proof.
  intros Hget Hstatus Hbody Hkey Hothers Helems.
  destruct (json_facts.mapM_total (json.unmarshal (T := option FullArtist) json.zero) elems)
    as [artists Hartists].
  { eapply Forall_impl; [| exact Helems]. intros e. apply pointer_unmarshal_total. }
  exists artists. split; [| split; [| split]].
  - unfold FindArtists, toStringSlice. rewrite map_id, Hget. unfold deferred.
    rewrite (status_OK _ Hstatus), Hbody.
    pose proof (decodeField_facts.decodeField_array (T := option FullArtist)
                  (field "Artists") pre post key elems Hkey Hothers) as D.
    rewrite Hartists in D.
    destruct (decodeField (field "Artists")
                (json.Document (json.Object (pre ++ (key, json.Array elems) :: post))))
      as [s | err]; cbn [bind] in D; [| discriminate].
    now inversion D.
  - eapply json_facts.mapM_length, Hartists.
  - intros i e Hi.
    destruct (json_facts.mapM_nth_error _ _ _ _ _ Hartists Hi) as (x & Hx & Hnth).
    destruct (pointer_unmarshal e x Hx) as [[-> ->] | (Hne & a & Ha & ->)].
    + split; [intros _; exact Hnth | congruence].
    + split; [congruence | intros _; now exists a].
  - intros i j e Hi Hj.
    destruct (json_facts.mapM_nth_error _ _ _ _ _ Hartists Hi) as (x & Hx & ->).
    destruct (json_facts.mapM_nth_error _ _ _ _ _ Hartists Hj) as (y & Hy & ->).
    congruence.
Qed.

End Methods.

(* ================================================================== *)
(** ** The album type token *)

Module albumtype_facts.
Import albumtype.

Lemma testbit_flag (i : nat) (n : Z) :
  0 <= n -> Z.testbit (flag i) n = (Z.of_nat i =? n)%Z.
Proof.
  intros Hn. unfold flag. rewrite Z.shiftl_1_l.
  apply Z.pow2_bits_eqb. lia.
Qed.

Lemma has_testbit (a : AlbumType) (i : nat) : has a i = Z.testbit a (Z.of_nat i).
Proof.
  unfold has. destruct (Z.testbit a (Z.of_nat i)) eqn:E.
  - destruct (Z.eqb_spec (Z.land a (flag i)) 0) as [E0 | _]; [| reflexivity].
    assert (B : Z.testbit (Z.land a (flag i)) (Z.of_nat i) = true).
    { rewrite Z.land_spec, E, testbit_flag, Z.eqb_refl by lia. reflexivity. }
    rewrite E0, Z.bits_0 in B. discriminate.
  - replace (Z.land a (flag i)) with 0; [reflexivity |].
    symmetry. apply Z.bits_inj'. intros n Hn.
    rewrite Z.land_spec, Z.bits_0, testbit_flag by exact Hn.
    destruct (Z.eqb_spec (Z.of_nat i) n) as [<- | _].
    + now rewrite E.
    + apply andb_false_r.
Qed.

Lemma testbit_combine (cs : list nat) (n : Z) :
  0 <= n -> Z.testbit (combine cs) n = existsb (fun c => (Z.of_nat c =? n)%Z) cs.
Proof.
  intros Hn. induction cs as [| c cs IH]; cbn [combine fold_right existsb].
  - apply Z.bits_0.
  - fold (combine cs). unfold or. now rewrite Z.lor_spec, testbit_flag, IH.
Qed.

Lemma has_combine (cs : list nat) (i : nat) : has (combine cs) i = true <-> In i cs.
Proof.
  rewrite has_testbit, testbit_combine by lia. rewrite existsb_exists. split.
  - intros (c & Hc & E). apply Z.eqb_eq in E. now replace i with c by lia.
  - intros Hi. exists i. split; [exact Hi | apply Z.eqb_refl].
Qed.

(** Two sets of categories with the same members combine to one value. *)
Lemma combine_ext (cs ds : list nat) :
  (forall c, In c ds <-> In c cs) -> combine ds = combine cs.
Proof.
  intros H. apply Z.bits_inj'. intros n Hn.
  rewrite <- (Z2Nat.id n Hn), <- !has_testbit.
  apply eq_true_iff_eq. rewrite !has_combine. apply H.
Qed.

Lemma flag_bound (i : nat) : (i < 63)%nat -> 0 <= flag i < 2 ^ 63.
Proof.
  intros Hi. unfold flag. rewrite Z.shiftl_1_l. split; [apply Z.pow_nonneg; lia |].
  apply Z.pow_lt_mono_r; lia.
Qed.

Lemma lor_bound (a b : Z) :
  0 <= a < 2 ^ 63 -> 0 <= b < 2 ^ 63 -> 0 <= Z.lor a b < 2 ^ 63.
Proof.
  intros Ha Hb. split; [apply Z.lor_nonneg; lia |].
  destruct (Z.eq_dec (Z.lor a b) 0) as [-> | Hne]; [lia |].
  apply Z.log2_lt_pow2; [pose proof (proj2 (Z.lor_nonneg a b)); lia |].
  rewrite Z.log2_lor by lia.
  apply Z.max_lub_lt.
  - destruct (Z.eq_dec a 0) as [-> | ?]; [cbn; lia | apply Z.log2_lt_pow2; lia].
  - destruct (Z.eq_dec b 0) as [-> | ?]; [cbn; lia | apply Z.log2_lt_pow2; lia].
Qed.

(** The combined value of categories below 63 is a Go [int]. *)
Lemma combine_is_int (cs : list nat) :
  Forall (fun c => (c < 63)%nat) cs -> 0 <= combine cs < 2 ^ 63.
Proof.
  induction 1 as [| c cs Hc _ IH]; cbn [combine fold_right].
  - lia.
  - apply lor_bound; [now apply flag_bound | exact IH].
Qed.

(** *** Splitting a joined list *)

Lemma comma_free_cons (c : ascii) (r : string) :
  comma_free (String c r) -> Ascii.eqb c "," = false /\ comma_free r.
Proof. unfold comma_free. cbn [strings.ContainsByte]. apply orb_false_elim. Qed.

Lemma Split_comma_free (tok : string) : comma_free tok -> strings.Split tok "," = [tok].
Proof.
  induction tok as [| c r IH]; intros H; [reflexivity |].
  apply comma_free_cons in H. destruct H as [Hc Hr].
  cbn [strings.Split]. now rewrite Hc, IH.
Qed.

Lemma Split_append (tok s : string) :
  comma_free tok -> strings.Split (tok ++ String "," s) "," = tok :: strings.Split s ",".
Proof.
  induction tok as [| c r IH]; intros H; [reflexivity |].
  apply comma_free_cons in H. destruct H as [Hc Hr].
  cbn [strings.Split append]. now rewrite Hc, IH.
Qed.

Lemma Split_Join (toks : list string) :
  toks <> [] -> Forall comma_free toks -> strings.Split (strings.Join toks ",") "," = toks.
Proof.
  induction toks as [| t toks IH]; intros Hne Hcf; [congruence |].
  inversion Hcf as [| ? ? Ht Hrest]; subst.
  destruct toks as [| t' toks].
  - now apply Split_comma_free.
  - change (strings.Join (t :: t' :: toks) ",")
      with (t ++ String "," (strings.Join (t' :: toks) ",")).
    rewrite Split_append by exact Ht. f_equal. apply IH; [discriminate | exact Hrest].
Qed.

Lemma Join_nonempty (t : string) (toks : list string) (sep : string) :
  t <> "" -> String.eqb (strings.Join (t :: toks) sep) "" = false.
Proof.
  intros Ht. destruct t as [| c t]; [congruence |].
  destruct toks; reflexivity.
Qed.

(** *** Reading the names back *)

Lemma category_found (pre rest : list string) (n : string) :
  forall k, ~ In n pre -> category (pre ++ n :: rest) k n = Some (k + List.length pre)%nat.
Proof.
  induction pre as [| p pre IH]; intros k Hn; cbn [category app List.length].
  - rewrite String.eqb_refl. f_equal. lia.
  - destruct (String.eqb_spec p n) as [-> | _]; [exfalso; apply Hn; now left |].
    rewrite IH by (intros Hin; apply Hn; now right). f_equal. lia.
Qed.

Lemma categories_tokens (a : AlbumType) (names : list string) :
  forall pre,
    NoDup (pre ++ names) ->
    categories (pre ++ names) (tokens names (List.length pre) a)
    = Some (held names (List.length pre) a).
Proof.
  induction names as [| n rest IH]; intros pre Hnd; [reflexivity |].
  cbn [tokens held].
  assert (Hrest : categories (pre ++ n :: rest) (tokens rest (S (List.length pre)) a)
                  = Some (held rest (S (List.length pre)) a)).
  { specialize (IH (pre ++ [n])%list).
    rewrite <- app_assoc, length_app in IH. cbn [app List.length] in IH.
    replace (List.length pre + 1)%nat with (S (List.length pre)) in IH by lia.
    now apply IH. }
  destruct (has a (List.length pre)); [| exact Hrest].
  cbn [categories]. rewrite category_found, Hrest; [reflexivity |].
  apply NoDup_remove_2 in Hnd. intros Hin. apply Hnd, in_or_app. now left.
Qed.

Lemma tokens_incl (a : AlbumType) (names : list string) :
  forall i t, In t (tokens names i a) -> In t names.
Proof.
  induction names as [| n rest IH]; intros i t; cbn [tokens]; [tauto |].
  destruct (has a i); cbn [In]; intros H.
  - destruct H as [-> | H]; [now left | right; eapply IH, H].
  - right. eapply IH, H.
Qed.

Lemma tokens_nil_held (a : AlbumType) (names : list string) :
  forall i, tokens names i a = [] -> held names i a = [].
Proof.
  induction names as [| n rest IH]; intros i; cbn [tokens held]; [reflexivity |].
  destruct (has a i); [discriminate | apply IH].
Qed.

Lemma In_held (a : AlbumType) (names : list string) :
  forall i c,
    In c (held names i a) <-> (i <= c < i + List.length names)%nat /\ has a c = true.
Proof.
  induction names as [| n rest IH]; intros i c; cbn [held List.length].
  - cbn [In]. lia.
  - destruct (has a i) eqn:E; cbn [In]; rewrite IH; split.
    + intros [<- | [H1 H2]]; (split; [lia | assumption]).
    + intros [H1 H2]. destruct (Nat.eq_dec i c) as [-> | Hne]; [now left |].
      right. split; [lia | exact H2].
    + intros [H1 H2]. split; [lia | exact H2].
    + intros [H1 H2]. destruct (Nat.eq_dec i c) as [-> | Hne]; [congruence |].
      split; [lia | exact H2].
Qed.

(** Decoding an encoded value gives the categories that the value holds. *)
Lemma decode_encode (names : list string) (a : AlbumType) :
  well_named names -> decode names (encode names a) = Some (held names 0 a).
Proof.
  intros (Hnd & Hnames & _). unfold decode, encode.
  pose proof (categories_tokens a names [] Hnd) as Hcat. cbn [app List.length] in Hcat.
  pose proof (tokens_incl a names 0) as Hincl.
  destruct (tokens names 0 a) as [| t toks] eqn:Et.
  - cbn. now rewrite (tokens_nil_held a names 0 Et).
  - rewrite Forall_forall in Hnames.
    rewrite Join_nonempty by (apply Hnames, Hincl; now left).
    rewrite Split_Join; [exact Hcat | discriminate |].
    apply Forall_forall. intros x Hx. now apply Hnames, Hincl.
Qed.

(** C9: for names that make a set of categories, every set [cs] of them,
    combined by bitwise OR (a value that fits Go's [int]), encoded and then
    decoded, gives a set with the members of [cs], which combines to the same
    value. *)
Theorem encode_decode_roundtrip (names : list string) (cs : list nat) :
  well_named names ->
  Forall (fun c => (c < List.length names)%nat) cs ->
  0 <= combine cs <= int_max /\
  exists ds,
    decode names (encode names (combine cs)) = Some ds /\
    (forall c, In c ds <-> In c cs) /\
    combine ds = combine cs.
Proof.
  intros Hwn Hcs. split.
  - destruct Hwn as (_ & _ & Hlen).
    assert (H63 : Forall (fun c => (c < 63)%nat) cs).
    { eapply Forall_impl; [| exact Hcs]. cbn. lia. }
    apply combine_is_int in H63. unfold int_max. lia.
  - exists (held names 0 (combine cs)).
    assert (Hmem : forall c, In c (held names 0 (combine cs)) <-> In c cs).
    { intros c. rewrite In_held, has_combine. rewrite Forall_forall in Hcs.
      split; [tauto |]. intros Hc. specialize (Hcs c Hc). split; [lia | exact Hc]. }
    split; [now apply decode_encode | split; [exact Hmem | now apply combine_ext]].
Qed.

End albumtype_facts.

(* ================================================================== *)
(** ** Examples on the Web API instance *)

Module examples.

Example query_all_set :
  ArtistAlbumsOpt_uri (pkg := example_pkg) "X" (Some options_FR_10_0) album_or_compilation
  = "https://api.spotify.com/v1/artists/X/albums?album_type=album%2Ccompilation&limit=10&market=FR&offset=0".
Proof. reflexivity. Qed.

Example find_artists_ABAZ :
  FindArtists (pkg := example_pkg) (answering 200 artists_body) ["A"; "B"; "A"; "Z"] []
  = (([Some (artist_entity "A" "Alpha"); Some (artist_entity "B" "Beta");
       Some (artist_entity "A" "Alpha"); None], None),
     [Requested "https://api.spotify.com/v1/artists?ids=A,B,A,Z"; Closed]).
Proof. reflexivity. Qed.

(** C1 on the instance: nothing set, so the market is the fallback. *)
Lemma ArtistAlbumsOpt_market_fallback_witness :
  Country no_options = None /\
  In "market=US" (url.pairs (ArtistAlbumsOpt_values (pkg := example_pkg) no_options None)) /\
  ArtistAlbumsOpt_uri (pkg := example_pkg) "X" (Some no_options) None
  = "https://api.spotify.com/v1/artists/X/albums?market=US".
Proof.
  split; [reflexivity |].
  destruct (ArtistAlbumsOpt_market_fallback (pkg := example_pkg) "X" no_options None eq_refl)
    as (_ & Hin & _ & Huri).
  split; [exact Hin | rewrite Huri; reflexivity].
Defined.

(** C2 as stated fails: with an [options] value in which nothing is set and
    without album type, the query string is [market=US], not the empty
    string, and it is appended to the URI. *)
Lemma ArtistAlbumsOpt_no_options_query_not_empty :
  ArtistAlbumsOpt_query (pkg := example_pkg) no_options None = "market=US" /\
  ArtistAlbumsOpt_query (pkg := example_pkg) no_options None <> "" /\
  ArtistAlbumsOpt_uri (pkg := example_pkg) "X" (Some no_options) None
  = "https://api.spotify.com/v1/artists/X/albums?market=US".
Proof. split; [reflexivity | split; [discriminate | reflexivity]]. Qed.

(** C8 on the instance: everything set. *)
Lemma ArtistAlbumsOpt_query_exact_witness :
  (forall l, Limit options_FR_10_0 = Some l -> is_int l) /\
  (forall o, Offset options_FR_10_0 = Some o -> is_int o) /\
  ArtistAlbumsOpt_query (pkg := example_pkg) options_FR_10_0 album_or_compilation
  = "album_type=album%2Ccompilation&limit=10&market=FR&offset=0" /\
  strconv.parseDecimal (strconv.Itoa 10) = Some 10.
Proof.
  assert (Hl : forall l, Limit options_FR_10_0 = Some l -> is_int l).
  { intros l E. inversion E. unfold is_int, int_min, int_max. cbn. lia. }
  assert (Ho : forall o, Offset options_FR_10_0 = Some o -> is_int o).
  { intros o E. inversion E. unfold is_int, int_min, int_max. cbn. lia. }
  split; [exact Hl | split; [exact Ho |]].
  destruct (ArtistAlbumsOpt_query_exact (pkg := example_pkg) options_FR_10_0 album_or_compilation Hl Ho)
    as (Hq & _ & _ & Hlimit & _).
  split; [rewrite Hq; reflexivity | exact (Hlimit 10 eq_refl)].
Defined.

(** C6 on the instance: one request, no body closed, the error as it is. *)
Lemma transport_error_unchanged_witness :
  FindArtist (pkg := example_pkg) (failing (OtherError "connection refused" 111)) "X" []
  = ((None, Some (OtherError "connection refused" 111)),
     [Requested "https://api.spotify.com/v1/artists/X"]) /\
  ArtistAlbumsOpt (pkg := example_pkg) (failing (OtherError "connection refused" 111))
                  "X" (Some options_FR_10_0) None []
  = ((None, Some (OtherError "connection refused" 111)),
     [Requested "https://api.spotify.com/v1/artists/X/albums?limit=10&market=FR&offset=0"]).
Proof.
  pose proof (transport_error_unchanged (pkg := example_pkg)
                (failing (OtherError "connection refused" 111))
                (OtherError "connection refused" 111) []
                [Requested "https://api.spotify.com/v1/artists/X"]) as (H1 & _).
  pose proof (transport_error_unchanged (pkg := example_pkg)
                (failing (OtherError "connection refused" 111))
                (OtherError "connection refused" 111) []
                [Requested "https://api.spotify.com/v1/artists/X/albums?limit=10&market=FR&offset=0"])
    as (_ & _ & _ & _ & H5 & _).
  split; [exact (H1 "X" eq_refl) | exact (H5 "X" (Some options_FR_10_0) None eq_refl)].
Defined.

(** C3 on the instance: an unknown identifier, answered with 404. *)
Lemma non_success_status_returns_decodeError_witness :
  ~ success 404 /\
  FindArtist (pkg := example_pkg) (answering 404 not_found_body) "Z" []
  = ((None, Some (OtherError "not found" 404)),
     [Requested "https://api.spotify.com/v1/artists/Z"; Closed]).
Proof.
  assert (Hs : ~ success 404) by (unfold success; lia).
  split; [exact Hs |].
  destruct (non_success_status_returns_decodeError (pkg := example_pkg)
              (answering 404 not_found_body)
              {| StatusCode := 404; Body := not_found_body |} []
              [Requested "https://api.spotify.com/v1/artists/Z"] Hs) as (H1 & _).
  exact (proj1 (H1 "Z" eq_refl)).
Defined.

(** C4 on the instance: total 37, limit 10, offset 20 and ten items. *)
Lemma ArtistAlbumsOpt_typed_page_witness :
  json.Decode (Body {| StatusCode := 200; Body := page_body |}) = Ok page_envelope /\
  json.Unmarshal (T := json.Slice (@SimpleAlbum example_pkg)) (rp_Items page_envelope)
  = Ok {| json.backing := ten_album_entities; json.len := 10 |} /\
  exists page,
    ArtistAlbums (pkg := example_pkg) (answering 200 page_body) "X" []
    = ((Some page, None), [Requested "https://api.spotify.com/v1/artists/X/albums"; Closed]) /\
    Total page = 37 /\ PageLimit page = 10 /\ PageOffset page = 20 /\
    Albums page = ten_album_entities /\ List.length (Albums page) = 10%nat.
Proof.
  split; [reflexivity | split; [reflexivity |]].
  destruct (ArtistAlbumsOpt_typed_page (pkg := example_pkg) (answering 200 page_body)
              "X" None None [] [Requested "https://api.spotify.com/v1/artists/X/albums"]
              {| StatusCode := 200; Body := page_body |} page_envelope
              {| json.backing := ten_album_entities; json.len := 10 |}
              eq_refl eq_refl eq_refl eq_refl)
    as (page & Hcall & (_ & Hlimit & Hoffset & Htotal & _ & _ & Halbums) & _).
  exists page. split; [exact Hcall |].
  split; [exact Htotal | split; [exact Hlimit | split; [exact Hoffset |]]].
  split; [exact Halbums | now rewrite Halbums].
Defined.

(** C5 on the instance: the identifiers [A, B, A, Z] with [Z] unknown. *)
Lemma FindArtists_preserves_order_witness :
  exists artists,
    FindArtists (pkg := example_pkg) (answering 200 artists_body) ["A"; "B"; "A"; "Z"] []
    = ((artists, None), [Requested "https://api.spotify.com/v1/artists?ids=A,B,A,Z"; Closed]) /\
    List.length artists = 4%nat /\
    nth_error artists 3 = Some None /\
    nth_error artists 0 = nth_error artists 2.
Proof.
  destruct (FindArtists_preserves_order (pkg := example_pkg) (answering 200 artists_body)
              ["A"; "B"; "A"; "Z"] [] [Requested "https://api.spotify.com/v1/artists?ids=A,B,A,Z"]
              {| StatusCode := 200; Body := artists_body |} [] [] "artists" artists_ABAZ
              eq_refl eq_refl eq_refl eq_refl (Forall_nil _))
    as (artists & Hcall & Hlen & Hnth & Hdup).
  { repeat (apply Forall_cons;
            [first [left; reflexivity | right; eexists; reflexivity] |]).
    apply Forall_nil. }
  exists artists. split; [exact Hcall | split; [exact Hlen | split]].
  - exact (proj1 (Hnth 3%nat json.Null eq_refl) eq_refl).
  - exact (Hdup 0%nat 2%nat (artist_json "A" "Alpha") eq_refl eq_refl).
Defined.

(** C9 on the categories of the Web API: compilation, single and
    compilation again. *)
Lemma encode_decode_roundtrip_witness :
  albumtype.well_named albumtype.webapi_names /\
  Forall (fun c => (c < 4)%nat) [3; 1; 3]%nat /\
  albumtype.encode albumtype.webapi_names (albumtype.combine [3; 1; 3]%nat) = "single,compilation" /\
  exists ds,
    albumtype.decode albumtype.webapi_names "single,compilation" = Some ds /\
    (forall c, In c ds <-> In c [3; 1; 3]%nat).
Proof.
  assert (Hwn : albumtype.well_named albumtype.webapi_names).
  { split; [| split].
    - repeat constructor; cbn; intuition discriminate.
    - repeat constructor; discriminate.
    - cbn. lia. }
  assert (Hcs : Forall (fun c => (c < List.length albumtype.webapi_names)%nat) [3; 1; 3]%nat).
  { repeat constructor. }
  split; [exact Hwn | split; [exact Hcs | split; [reflexivity |]]].
  destruct (albumtype_facts.encode_decode_roundtrip albumtype.webapi_names [3; 1; 3]%nat Hwn Hcs)
    as (_ & ds & Hdec & Hmem & _).
  exists ds. split; [exact Hdec | exact Hmem].
Defined.

End examples.

(* ================================================================== *)
(** ** What every method does with a response *)

Section Outcomes.

Context {pkg : Package} {World : Type}.
Variable c : Client World.

Lemma method_outcome :
  for_every_method c (fun T uri none decode m => forall w, m w = outcome c uri none decode w).
Proof.
  unfold for_every_method, outcome.
  repeat match goal with |- _ /\ _ => split end; intros;
    unfold FindArtist, FindArtists, ArtistsTopTracks, FindRelatedArtists, ArtistAlbums,
           ArtistAlbumsOpt, FindArtist_uri, FindArtists_uri, ArtistsTopTracks_uri,
           FindRelatedArtists_uri, deferred, decodeArtist, decodeAlbumPage, decodeElements;
    match goal with
    | |- context [http_Get c ?u ?w] => destruct (http_Get c u w) as [[resp | err] w']
    end;
    try reflexivity;
    destruct (negb (StatusCode resp =? StatusOK)%Z); try reflexivity;
    f_equal;
    repeat match goal with
           | |- context [bind ?r _] => destruct r; cbn [bind]
           end;
    reflexivity.
Qed.

Lemma for_every_method_outcome
    (P : forall T : Type, string -> T -> (json.Body -> result T) ->
                          (World -> returns World T) -> Prop) :
  (forall T uri none decode (m : World -> returns World T),
      (forall w, m w = outcome c uri none decode w) -> P T uri none decode m) ->
  for_every_method c P.
Proof.
  intros H. pose proof method_outcome as M. unfold for_every_method in *.
  repeat match type of M with _ /\ _ => destruct M as [?M M] end.
  repeat match goal with |- _ /\ _ => split end; intros; apply H; auto.
Qed.

Lemma for_every_method_and
    (P Q : forall T : Type, string -> T -> (json.Body -> result T) ->
                            (World -> returns World T) -> Prop) :
  for_every_method c P -> for_every_method c Q ->
  for_every_method c (fun T uri none decode m =>
                        P T uri none decode m /\ Q T uri none decode m).
Proof. unfold for_every_method. intuition. Qed.

(** X1: a response whose status is not exactly 200 is an error for every
    method, 2xx statuses other than 200 included: the method returns nil
    and the error that [decodeError] makes of the body, and closes the
    body. *)
Theorem status_other_than_200_is_error :
  for_every_method c (fun T uri none decode m =>
    forall resp w w',
      http_Get c uri w = (Ok resp, w') ->
      StatusCode resp <> StatusOK ->
      m w = ((none, Some (decodeError (Body resp))), Body_Close c resp w')).
Proof.
  apply for_every_method_outcome. intros T uri none decode m Hm resp w w' Hget Hs.
  rewrite Hm. unfold outcome. rewrite Hget.
  destruct (Z.eqb_spec (StatusCode resp) StatusOK); [contradiction | reflexivity].
Qed.

Lemma decode_error_returned :
  for_every_method c (fun T uri none decode m =>
    forall resp w w' err,
      http_Get c uri w = (Ok resp, w') ->
      StatusCode resp = StatusOK ->
      decode (Body resp) = Err err ->
      m w = ((none, Some err), Body_Close c resp w')).
Proof.
  apply for_every_method_outcome.
  intros T uri none decode m Hm resp w w' err Hget Hs Hd.
  rewrite Hm. unfold outcome. now rewrite Hget, Hs, Hd.
Qed.

(** X2: with status 200, an error of the decoding of the body (for
    [ArtistAlbumsOpt]: of the envelope, or of its items) is returned as it is,
    with a nil result and the body closed. *)
Theorem decode_error_unchanged :
  for_every_method c (fun T uri none decode m =>
    forall resp w w' err,
      http_Get c uri w = (Ok resp, w') ->
      StatusCode resp = StatusOK ->
      decode (Body resp) = Err err ->
      m w = ((none, Some err), Body_Close c resp w')).
Proof. apply decode_error_returned. Qed.

(** X3: no method returns a value together with an error: whenever the
    error is not nil, the result is the nil value of its type. *)
Theorem error_implies_nil_value :
  for_every_method c (fun T uri none decode m =>
    forall w err, snd (fst (m w)) = Some err -> fst (fst (m w)) = none).
Proof.
  apply for_every_method_outcome. intros T uri none decode m Hm w err.
  rewrite Hm. unfold outcome.
  destruct (http_Get c uri w) as [[resp | e] w']; cbn [fst snd]; [| reflexivity].
  destruct (negb (StatusCode resp =? StatusOK)%Z); [reflexivity |].
  destruct (decode (Body resp)); cbn [fst snd]; [discriminate | reflexivity].
Qed.

(** X4: the methods that return a pointer never return nil without an
    error: of the artist (or page) and the error, exactly one is nil. *)
Theorem pointer_result_xor_error :
  (forall id w,
      match fst (FindArtist c id w) with
      | (Some _, None) | (None, Some _) => True
      | _ => False
      end) /\
  (forall artistID options t w,
      match fst (ArtistAlbumsOpt c artistID options t w) with
      | (Some _, None) | (None, Some _) => True
      | _ => False
      end) /\
  (forall artistID w,
      match fst (ArtistAlbums c artistID w) with
      | (Some _, None) | (None, Some _) => True
      | _ => False
      end).
Proof.
  destruct method_outcome as (M1 & _ & _ & _ & M5 & M6).
  split; [| split]; intros;
    rewrite ?M1, ?M5, ?M6; unfold outcome;
    match goal with
    | |- context [http_Get c ?u ?w] => destruct (http_Get c u w) as [[resp | e] w']
    end; cbn [fst]; try exact I;
    (destruct (negb (StatusCode resp =? StatusOK)%Z); [exact I |]);
    unfold decodeArtist, decodeAlbumPage;
    repeat match goal with
           | |- context [bind ?r _] => destruct r; cbn [bind]
           end; exact I.
Qed.

(** X5: every method makes one request, and closes the body of the response
    on every path on which it received one: the world is left as the GET
    left it when the GET failed, and as the close of the body left it
    otherwise, whatever the status and the body. *)
Theorem body_closed_when_received :
  for_every_method c (fun T uri none decode m =>
    forall w,
      snd (m w) = match http_Get c uri w with
                  | (Ok resp, w') => Body_Close c resp w'
                  | (Err _, w') => w'
                  end).
Proof.
  apply for_every_method_outcome. intros T uri none decode m Hm w.
  rewrite Hm. unfold outcome.
  now destruct (http_Get c uri w) as [[resp | e] w'].
Qed.

(** With status 200 and a body that decodes, the decoded value is
    returned without error. *)
Lemma decoded_value_returned :
  for_every_method c (fun T uri none decode m =>
    forall resp w w' v,
      http_Get c uri w = (Ok resp, w') ->
      StatusCode resp = StatusOK ->
      decode (Body resp) = Ok v ->
      m w = ((v, None), Body_Close c resp w')).
Proof.
  apply for_every_method_outcome. intros T uri none decode m Hm resp w w' v Hget Hs Hd.
  rewrite Hm. unfold outcome. now rewrite Hget, Hs, Hd.
Qed.

End Outcomes.

(* ================================================================== *)
(** ** Decoding an artist *)

Module FullArtist_facts.

Section Fields.

Context {pkg : Package}.

Ltac index_cases Hk E key :=
  unfold json.selectsb in Hk; unfold FullArtist_setField in E;
  remember (json.findField FullArtist_fields key) as found eqn:Hfound; clear Hfound;
  let i := fresh "i" in
  destruct found as [i |]; [rawPage_facts.split_index i Hk 9%nat |].

Ltac other_field :=
  let E := fresh "E" in
  intros [[f_nm f_id f_uri f_href f_ext] f_pop f_gen f_fol f_img] f_key f_u f_st Hk E;
  index_cases Hk E f_key; try discriminate Hk;
  try match type of E with
      | bind ?r _ = _ => destruct r; cbn [bind] in E; [| discriminate]
      end;
  inversion E; reflexivity.

Ltac this_field :=
  let E := fresh "E" in
  intros [[f_nm f_id f_uri f_href f_ext] f_pop f_gen f_fol f_img] f_key f_st Hk E;
  index_cases Hk E f_key; try discriminate Hk;
  cbn in E;
  repeat match type of E with
         | context [if ?b then _ else _] => destruct b; cbn in E
         end;
  inversion E; reflexivity.

Ltac by_last_member proj name v want Hm E :=
  let pre := fresh "pre" in let post := fresh "post" in let key := fresh "key" in
  let Hb := fresh "Hb" in let Hkey := fresh "Hkey" in let Hpost := fresh "Hpost" in
  destruct Hm as (pre & post & key & Hb & Hkey & Hpost);
  rewrite Hb in E; cbn [json.Decode json.unmarshal FullArtist_json] in E;
  exact (json_facts.last_member_wins FullArtist_setField proj
           (fun k => json.selectsb FullArtist_fields k name) v want
           ltac:(this_field) ltac:(other_field) "FullArtist" json.zero _ pre post key
           Hkey Hpost E).

Variables (b : json.Body) (a : FullArtist).
Hypothesis decoded : json.Decode b = Ok a.

Lemma Name_member (s : string) :
  json.member_is FullArtist_fields b "name" (json.Str s) -> Name (Simple a) = s.
Proof.
  intros Hm. by_last_member (fun x => Name (Simple x)) "name" (json.Str s) s Hm decoded.
Qed.

Lemma ArtistID_member (s : string) :
  json.member_is FullArtist_fields b "id" (json.Str s) -> ArtistID (Simple a) = s.
Proof.
  intros Hm. by_last_member (fun x => ArtistID (Simple x)) "id" (json.Str s) s Hm decoded.
Qed.

Lemma ArtistURI_member (s : string) :
  json.member_is FullArtist_fields b "uri" (json.Str s) -> ArtistURI (Simple a) = s.
Proof.
  intros Hm. by_last_member (fun x => ArtistURI (Simple x)) "uri" (json.Str s) s Hm decoded.
Qed.

Lemma ArtistEndpoint_member (s : string) :
  json.member_is FullArtist_fields b "href" (json.Str s) -> ArtistEndpoint (Simple a) = s.
Proof.
  intros Hm.
  by_last_member (fun x => ArtistEndpoint (Simple x)) "href" (json.Str s) s Hm decoded.
Qed.

Lemma Popularity_member (n : Z) :
  json.member_is FullArtist_fields b "popularity" (json.Number n) -> Popularity a = n.
Proof. intros Hm. by_last_member Popularity "popularity" (json.Number n) n Hm decoded. Qed.

End Fields.

Lemma setField_unknown {pkg : Package} (a : FullArtist) (key : string) (v : json.Value) :
  unknown_to FullArtist_fields key -> FullArtist_setField a key v = Ok a.
Proof.
  unfold unknown_to. intros H. unfold FullArtist_setField. rewrite H.
  now destruct a as [[nm id uri href ext] pop gen fol img].
Qed.

End FullArtist_facts.

(* ================================================================== *)
(** ** Members that are missing, unknown or null *)

Module member_facts.

Lemma store_ignored {T : Type} (setField : T -> string -> json.Value -> result T)
    (key : string) (v : json.Value) (acc : result T) :
  (forall st, setField st key v = Ok st) -> json.store setField acc (key, v) = acc.
Proof. intros H. destruct acc as [st | e]; cbn; [apply H | reflexivity]. Qed.

(** A member that stores nothing can be left out of the object. *)
Lemma unmarshalStruct_skip {T : Type} (setField : T -> string -> json.Value -> result T)
    (goType : string) (cur : T) (pre post : list (string * json.Value))
    (key : string) (v : json.Value) :
  (forall st, setField st key v = Ok st) ->
  json.unmarshalStruct goType setField cur (json.Object (pre ++ (key, v) :: post)) =
  json.unmarshalStruct goType setField cur (json.Object (pre ++ post)).
Proof.
  intros H. cbn [json.unmarshalStruct]. rewrite !fold_left_app. cbn [fold_left].
  now rewrite store_ignored.
Qed.

End member_facts.

(* ================================================================== *)
(** ** The methods on bodies with missing, unknown or null members *)

Section Decoding.

Context {pkg : Package} {World : Type}.
Variable c : Client World.

(** X6: with status 200 and a body that decodes into the artist [a],
    [FindArtist] returns [a], whose name, id, uri, href and popularity are the
    values of the last members that the decoder stores in these fields. *)
Theorem FindArtist_fields (id : ID) (w w' : World) (resp : Response) (a : FullArtist) :
  http_Get c (FindArtist_uri id) w = (Ok resp, w') ->
  StatusCode resp = StatusOK ->
  json.Decode (Body resp) = Ok a ->
  FindArtist c id w = ((Some a, None), Body_Close c resp w') /\
  (forall s, json.member_is FullArtist_fields (Body resp) "name" (json.Str s) ->
             Name (Simple a) = s) /\
  (forall s, json.member_is FullArtist_fields (Body resp) "id" (json.Str s) ->
             ArtistID (Simple a) = s) /\
  (forall s, json.member_is FullArtist_fields (Body resp) "uri" (json.Str s) ->
             ArtistURI (Simple a) = s) /\
  (forall s, json.member_is FullArtist_fields (Body resp) "href" (json.Str s) ->
             ArtistEndpoint (Simple a) = s) /\
  (forall n, json.member_is FullArtist_fields (Body resp) "popularity" (json.Number n) ->
             Popularity a = n).
Proof.
  intros Hget Hs Hd.
  destruct (decoded_value_returned c) as (R & _).
  split.
  { apply (R id resp w w' (Some a) Hget Hs). unfold decodeArtist. now rewrite Hd. }
  split; [intros s; apply (FullArtist_facts.Name_member _ _ Hd) |].
  split; [intros s; apply (FullArtist_facts.ArtistID_member _ _ Hd) |].
  split; [intros s; apply (FullArtist_facts.ArtistURI_member _ _ Hd) |].
  split; [intros s; apply (FullArtist_facts.ArtistEndpoint_member _ _ Hd) |].
  intros n; apply (FullArtist_facts.Popularity_member _ _ Hd).
Qed.

(** X7: with status 200 and a body that is [null], or an object for none of
    whose members the decoder finds a field of the artist, [FindArtist]
    returns an artist with every field at its zero value, and no error. *)
Theorem FindArtist_without_fields (id : ID) (w w' : World) (resp : Response) :
  http_Get c (FindArtist_uri id) w = (Ok resp, w') ->
  StatusCode resp = StatusOK ->
  (Body resp = json.Document json.Null \/
   exists members,
     Body resp = json.Document (json.Object members) /\
     Forall (fun member => unknown_to FullArtist_fields (fst member)) members) ->
  FindArtist c id w = ((Some FullArtist_zero, None), Body_Close c resp w').
Proof.
  intros Hget Hs Hb.
  destruct (decoded_value_returned c) as (R & _).
  apply (R id resp w w' (Some FullArtist_zero) Hget Hs).
  unfold decodeArtist.
  destruct Hb as [-> | (members & -> & Hm)]; [reflexivity |].
  cbn [json.Decode json.unmarshal FullArtist_json json.unmarshalStruct].
  rewrite json_facts.fold_ignored; [reflexivity |].
  eapply Forall_impl; [| exact Hm]. intros [k v] Hk st.
  now apply FullArtist_facts.setField_unknown.
Qed.

(** X8: a member for whose key the decoder finds no field of the artist
    does not change what [FindArtist] returns: the outcome is that of the body
    without the member. *)
Theorem FindArtist_ignores_unknown_member (id : ID) (w w' : World) (resp : Response)
    (pre post : list (string * json.Value)) (key : string) (v : json.Value) :
  http_Get c (FindArtist_uri id) w = (Ok resp, w') ->
  StatusCode resp = StatusOK ->
  Body resp = json.Document (json.Object (pre ++ (key, v) :: post)) ->
  unknown_to FullArtist_fields key ->
  FindArtist c id w =
    (match json.Decode (T := FullArtist) (json.Document (json.Object (pre ++ post))) with
     | Ok a => (Some a, None)
     | Err err => (None, Some err)
     end, Body_Close c resp w').
Proof.
  intros Hget Hs Hb Hk.
  destruct (method_outcome c) as (M & _). rewrite M. unfold outcome.
  rewrite Hget, Hs, Hb. cbn [negb Z.eqb StatusOK Pos.eqb].
  unfold decodeArtist.
  cbn [json.Decode json.unmarshal FullArtist_json].
  rewrite member_facts.unmarshalStruct_skip
    by (intros st; now apply FullArtist_facts.setField_unknown).
  now destruct (json.unmarshalStruct "FullArtist" FullArtist_setField json.zero
                  (json.Object (pre ++ post))).
Qed.

Lemma decodeElements_lacks {T : Type} `{json.Unmarshaler T} (name : json.FieldName)
    (b : json.Body) :
  lacks b name -> decodeElements (T := T) name b = Ok [].
Proof.
  unfold decodeElements.
  intros [-> | (members & -> & Hm)]; [reflexivity |].
  now rewrite decodeField_facts.decodeField_missing.
Qed.

Lemma decodeElements_array {T : Type} `{json.Unmarshaler T} (name : json.FieldName)
    (b : json.Body) (elems : list json.Value) :
  has_array b name elems ->
  decodeElements (T := T) name b = mapM (json.unmarshal (T := T) json.zero) elems.
Proof.
  intros (pre & post & key & -> & Hkey & Hothers). unfold decodeElements.
  now apply decodeField_facts.decodeField_array.
Qed.

(** X9: with status 200 and a body that is [null] or an object without a
    member for the field that holds the list, the methods that return a list
    return the empty list and no error. *)
Theorem list_methods_without_member (w w' : World) (resp : Response) :
  StatusCode resp = StatusOK ->
  (forall ids,
      http_Get c (FindArtists_uri ids) w = (Ok resp, w') ->
      lacks (Body resp) (field "Artists") ->
      FindArtists c ids w = (([], None), Body_Close c resp w')) /\
  (forall artistID country,
      http_Get c (ArtistsTopTracks_uri artistID country) w = (Ok resp, w') ->
      lacks (Body resp) (field "tracks") ->
      ArtistsTopTracks c artistID country w = (([], None), Body_Close c resp w')) /\
  (forall id,
      http_Get c (FindRelatedArtists_uri id) w = (Ok resp, w') ->
      lacks (Body resp) (field "artists") ->
      FindRelatedArtists c id w = (([], None), Body_Close c resp w')).
Proof.
  intros Hs. destruct (decoded_value_returned c) as (_ & R2 & R3 & R4 & _).
  split; [| split].
  - intros ids Hget Hl. apply (R2 ids resp w w' [] Hget Hs).
    now apply decodeElements_lacks.
  - intros artistID country Hget Hl. apply (R3 artistID country resp w w' [] Hget Hs).
    now apply decodeElements_lacks.
  - intros id Hget Hl. apply (R4 id resp w w' [] Hget Hs).
    now apply decodeElements_lacks.
Qed.

(** X10: with status 200 and a body whose one member for the field
    [artists] is an array whose elements decode, [FindRelatedArtists] returns
    as many artists as the array has elements, the i-th being the decoding of
    the i-th element; a [null] element gives an artist with every field at its
    zero value, not a hole. *)
Theorem FindRelatedArtists_preserves_order (id : ID) (w w' : World) (resp : Response)
    (elems : list json.Value) :
  http_Get c (FindRelatedArtists_uri id) w = (Ok resp, w') ->
  StatusCode resp = StatusOK ->
  has_array (Body resp) (field "artists") elems ->
  Forall (fun e => exists a : FullArtist, json.unmarshal json.zero e = Ok a) elems ->
  exists artists,
    FindRelatedArtists c id w = ((artists, None), Body_Close c resp w') /\
    List.length artists = List.length elems /\
    (forall i e, nth_error elems i = Some e ->
       exists a, json.unmarshal json.zero e = Ok a /\ nth_error artists i = Some a) /\
    (forall i, nth_error elems i = Some json.Null ->
       nth_error artists i = Some FullArtist_zero).
Proof.
  intros Hget Hs Hb Helems.
  destruct (json_facts.mapM_total (json.unmarshal (T := FullArtist) json.zero) elems Helems)
    as [artists Hartists].
  destruct (decoded_value_returned c) as (_ & _ & _ & R4 & _).
  exists artists. split; [| split; [| split]].
  - apply (R4 id resp w w' artists Hget Hs).
    now rewrite (decodeElements_array _ _ elems Hb).
  - eapply json_facts.mapM_length, Hartists.
  - intros i e Hi. eapply json_facts.mapM_nth_error; eassumption.
  - intros i Hi.
    destruct (json_facts.mapM_nth_error _ _ _ _ _ Hartists Hi) as (a & Ha & Hnth).
    cbn in Ha. inversion Ha; subst. exact Hnth.
Qed.

(** X11: with status 200 and a body whose one member for the field
    [tracks] is an array whose elements decode, [ArtistsTopTracks] returns as
    many tracks as the array has elements, the i-th being the decoding of the
    i-th element. *)
Theorem ArtistsTopTracks_preserves_order (artistID : ID) (country : string) (w w' : World)
    (resp : Response) (elems : list json.Value) :
  http_Get c (ArtistsTopTracks_uri artistID country) w = (Ok resp, w') ->
  StatusCode resp = StatusOK ->
  has_array (Body resp) (field "tracks") elems ->
  Forall (fun e => exists t : FullTrack, json.unmarshal json.zero e = Ok t) elems ->
  exists tracks,
    ArtistsTopTracks c artistID country w = ((tracks, None), Body_Close c resp w') /\
    List.length tracks = List.length elems /\
    (forall i e, nth_error elems i = Some e ->
       exists t, json.unmarshal json.zero e = Ok t /\ nth_error tracks i = Some t).
Proof.
  intros Hget Hs Hb Helems.
  destruct (json_facts.mapM_total (json.unmarshal (T := FullTrack) json.zero) elems Helems)
    as [tracks Htracks].
  destruct (decoded_value_returned c) as (_ & _ & R3 & _).
  exists tracks. split; [| split].
  - apply (R3 artistID country resp w w' tracks Hget Hs).
    now rewrite (decodeElements_array _ _ elems Hb).
  - eapply json_facts.mapM_length, Htracks.
  - intros i e Hi. eapply json_facts.mapM_nth_error; eassumption.
Qed.

(** X12: with status 200 and an envelope that decodes but has no member
    that the decoder stores in the items, [ArtistAlbumsOpt] returns no page
    and the syntax error of the second decode, which is given an empty
    message. *)
Theorem ArtistAlbumsOpt_without_items (artistID : ID) (options : option Options)
    (t : option AlbumType) (w w' : World) (resp : Response) (p : rawPage)
    (members : list (string * json.Value)) :
  http_Get c (ArtistAlbumsOpt_uri artistID options t) w = (Ok resp, w') ->
  StatusCode resp = StatusOK ->
  Body resp = json.Document (json.Object members) ->
  Forall (fun member => json.selectsb rawPage_fields (fst member) "items" = false) members ->
  json.Decode (Body resp) = Ok p ->
  ArtistAlbumsOpt c artistID options t w = ((None, Some SyntaxError), Body_Close c resp w').
Proof.
  intros Hget Hs Hb Hm Hp.
  assert (Hitems : rp_Items p = None).
  { rewrite Hb in Hp. cbn [json.Decode json.unmarshal rawPage_json json.unmarshalStruct] in Hp.
    apply (json_facts.fold_preserves rawPage_setField rp_Items
             (fun k => json.selectsb rawPage_fields k "items")
             ltac:(rawPage_facts.other_field) members _ p Hm Hp). }
  destruct (decode_error_returned c) as (_ & _ & _ & _ & R5 & _).
  apply (R5 artistID options t resp w w' SyntaxError Hget Hs).
  unfold decodeAlbumPage. rewrite Hp. cbn [bind]. now rewrite Hitems.
Qed.

(** X13: with status 200 and an envelope in which the last member that the
    decoder stores in the items is [null], [ArtistAlbumsOpt] returns a page
    without albums and no error. *)
Theorem ArtistAlbumsOpt_null_items (artistID : ID) (options : option Options)
    (t : option AlbumType) (w w' : World) (resp : Response) (p : rawPage) :
  http_Get c (ArtistAlbumsOpt_uri artistID options t) w = (Ok resp, w') ->
  StatusCode resp = StatusOK ->
  json.Decode (Body resp) = Ok p ->
  json.member_is rawPage_fields (Body resp) "items" json.Null ->
  ArtistAlbumsOpt c artistID options t w =
    ((Some {| Endpoint := rp_Endpoint p;
              PageLimit := rp_Limit p;
              PageOffset := rp_Offset p;
              Total := rp_Total p;
              Next := rp_Next p;
              Previous := rp_Previous p;
              Albums := [] |}, None), Body_Close c resp w').
Proof.
  intros Hget Hs Hp Hm.
  destruct (decoded_value_returned c) as (_ & _ & _ & _ & R5 & _).
  apply (R5 artistID options t resp w w' _ Hget Hs).
  unfold decodeAlbumPage. rewrite Hp. cbn [bind].
  now rewrite (rawPage_facts.rp_Items_member _ _ Hp _ Hm).
Qed.

Lemma mapM_first_failure {T : Type} `{json.Unmarshaler T} (elems : list json.Value)
    (err : error) :
  first_failure T elems err -> mapM (json.unmarshal (T := T) json.zero) elems = Err err.
Proof.
  intros (good & bad & rest & -> & Hgood & Hbad).
  induction Hgood as [| e good [x Hx] _ IH]; cbn [app mapM].
  - now rewrite Hbad.
  - now rewrite Hx, IH.
Qed.

(** X17: the methods that return a list return no partial list: with
    status 200 and an array in which some element does not decode, the result
    is the nil list and the error of the first such element. *)
Theorem list_methods_fail_on_bad_element (w w' : World) (resp : Response)
    (elems : list json.Value) (err : error) :
  StatusCode resp = StatusOK ->
  (forall ids,
      http_Get c (FindArtists_uri ids) w = (Ok resp, w') ->
      has_array (Body resp) (field "Artists") elems ->
      first_failure (option FullArtist) elems err ->
      FindArtists c ids w = (([], Some err), Body_Close c resp w')) /\
  (forall artistID country,
      http_Get c (ArtistsTopTracks_uri artistID country) w = (Ok resp, w') ->
      has_array (Body resp) (field "tracks") elems ->
      first_failure FullTrack elems err ->
      ArtistsTopTracks c artistID country w = (([], Some err), Body_Close c resp w')) /\
  (forall id,
      http_Get c (FindRelatedArtists_uri id) w = (Ok resp, w') ->
      has_array (Body resp) (field "artists") elems ->
      first_failure FullArtist elems err ->
      FindRelatedArtists c id w = (([], Some err), Body_Close c resp w')).
Proof.
  intros Hs. destruct (decode_error_returned c) as (_ & R2 & R3 & R4 & _).
  split; [| split].
  - intros ids Hget Ha Hf. apply (R2 ids resp w w' err Hget Hs).
    rewrite (decodeElements_array _ _ elems Ha). now apply mapM_first_failure.
  - intros artistID country Hget Ha Hf. apply (R3 artistID country resp w w' err Hget Hs).
    rewrite (decodeElements_array _ _ elems Ha). now apply mapM_first_failure.
  - intros id Hget Ha Hf. apply (R4 id resp w w' err Hget Hs).
    rewrite (decodeElements_array _ _ elems Ha). now apply mapM_first_failure.
Qed.

End Decoding.

(* ================================================================== *)
(** ** Reading the query string of [ArtistAlbumsOpt] back *)

Module urlquery_facts.
Import urlquery string_facts.

Lemma free_append (bad : ascii -> bool) (s t : string) :
  free bad (s ++ t) = free bad s && free bad t.
Proof.
  induction s as [| c s IH]; cbn [append free]; [reflexivity |].
  now rewrite IH, andb_assoc.
Qed.

Lemma free_QueryEscape_step (c : ascii) (rest : string) :
  free isDelimiter (url.QueryEscape (String c rest)) = free isDelimiter (url.QueryEscape rest).
Proof. destruct c as [[] [] [] [] [] [] [] []]; reflexivity. Qed.

(** An escaped string holds no ['&'], [';'] or ['=']. *)
Lemma free_QueryEscape (s : string) : free isDelimiter (url.QueryEscape s) = true.
Proof.
  induction s as [| c s IH]; [reflexivity |]. now rewrite free_QueryEscape_step.
Qed.

Lemma free_weaken (bad bad' : ascii -> bool) (s : string) :
  (forall c, bad' c = true -> bad c = true) -> free bad s = true -> free bad' s = true.
Proof.
  intros H. induction s as [| c s IH]; cbn [free]; [reflexivity |].
  intros E. apply andb_true_iff in E. destruct E as [Ec Es].
  rewrite IH by exact Es. destruct (bad' c) eqn:B; [| reflexivity].
  rewrite (H c B) in Ec. discriminate.
Qed.

Lemma pieces_free (p : string) : free isSeparator p = true -> pieces p = [p].
Proof.
  induction p as [| c p IH]; cbn [free pieces]; [reflexivity |].
  intros E. apply andb_true_iff in E. destruct E as [Ec Ep].
  apply negb_true_iff in Ec. now rewrite Ec, IH.
Qed.

Lemma pieces_append (p s : string) :
  free isSeparator p = true -> pieces (p ++ String "&" s) = p :: pieces s.
Proof.
  induction p as [| c p IH]; cbn [free pieces append]; [reflexivity |].
  intros E. apply andb_true_iff in E. destruct E as [Ec Ep].
  apply negb_true_iff in Ec. now rewrite Ec, IH.
Qed.

Lemma pieces_Join (ps : list string) :
  ps <> [] -> Forall (fun p => free isSeparator p = true) ps ->
  pieces (strings.Join ps "&") = ps.
Proof.
  induction ps as [| p ps IH]; intros Hne Hfree; [congruence |].
  inversion Hfree as [| ? ? Hp Hps]; subst.
  destruct ps as [| q ps].
  - now apply pieces_free.
  - change (strings.Join (p :: q :: ps) "&") with (p ++ String "&" (strings.Join (q :: ps) "&")).
    rewrite pieces_append by exact Hp. f_equal. apply IH; [discriminate | exact Hps].
Qed.

Lemma cut_append (key rest : string) :
  free (fun c => Ascii.eqb c "=") key = true ->
  cut (key ++ String "=" rest) = (key, Some rest).
Proof.
  induction key as [| c key IH]; cbn [free cut append]; [reflexivity |].
  intros E. apply andb_true_iff in E. destruct E as [Ec Ek].
  apply negb_true_iff in Ec. now rewrite Ec, IH.
Qed.

Section Params.

Context {pkg : Package}.

Lemma param_free (key value : string) :
  plain key -> free isSeparator (param key value) = true.
Proof.
  intros (_ & Hk & _). unfold param.
  assert (W : forall s, free isDelimiter s = true -> free isSeparator s = true).
  { intros s. apply free_weaken. intros c E. unfold isDelimiter. now rewrite E. }
  rewrite !free_append, (W key Hk), (W _ (free_QueryEscape value)). reflexivity.
Qed.

(** Reading a parameter adds its value, unescaped, under its key. *)
Lemma parsePiece_param (m : url.Values) (key value : string) :
  plain key -> parsePiece (Some m) (param key value) = Some (Add m key value).
Proof.
  intros (Hne & Hk & Hu). unfold parsePiece.
  assert (E : String.eqb (param key value) "" = false).
  { unfold param. destruct key; [congruence | reflexivity]. }
  rewrite E. unfold param.
  change (key ++ "=" ++ url.QueryEscape value)
    with (key ++ String "=" (url.QueryEscape value)).
  rewrite cut_append.
  - now rewrite Hu, url_facts.QueryUnescape_QueryEscape.
  - apply (free_weaken isDelimiter); [| exact Hk].
    intros a Ea. unfold isDelimiter. rewrite Ea. apply orb_true_r.
Qed.

End Params.

Section RoundTrip.

Context {pkg : Package}.

Ltac plain_key := split; [discriminate | split; reflexivity].

Ltac same_values key :=
  match goal with
  | |- url.Get ?m key = url.Get ?m' key =>
      let m1 := eval cbn in m in
      let m2 := eval cbn in m' in
      change (url.Get m1 key = url.Get m2 key)
  end;
  cbn [url.Get];
  repeat match goal with
         | |- context [String.eqb ?k key] =>
             destruct (String.eqb_spec k key) as [<- | ?]; [reflexivity |]
         end;
  reflexivity.

Lemma query_parses_back (options : Options) (t : option AlbumType) :
  exists m,
    ParseQuery (ArtistAlbumsOpt_query options t) = Some m /\
    forall key, url.Get m key = url.Get (ArtistAlbumsOpt_values options t) key.
Proof.
  rewrite ArtistAlbumsOpt_query_Join. unfold ParseQuery.
  destruct options as [[country |] [limit |] [offset |]], t as [t |];
    unfold expectedParams; cbn [Country Limit Offset app];
    (rewrite pieces_Join;
     [ cbn [fold_left]; rewrite !parsePiece_param by plain_key;
       eexists; split; [reflexivity | intros key; same_values key]
     | discriminate
     | repeat (apply Forall_cons; [apply param_free; plain_key |]); apply Forall_nil ]).
Qed.

(** X14: the query string of [ArtistAlbumsOpt] reads back, with
    [url.ParseQuery], as the map it was encoded from: under every key, the
    parsed values are the values that were set, whatever bytes they hold. *)
Theorem ArtistAlbumsOpt_query_parses_back (options : Options) (t : option AlbumType) :
  exists m,
    ParseQuery (ArtistAlbumsOpt_query options t) = Some m /\
    forall key, url.Get m key = url.Get (ArtistAlbumsOpt_values options t) key.
Proof. apply query_parses_back. Qed.

Lemma Get_values_limit (options : Options) (t : option AlbumType) :
  url.Get (ArtistAlbumsOpt_values options t) "limit"
  = match Limit options with Some l => [strconv.Itoa l] | None => [] end.
Proof. destruct options as [[country |] [limit |] [offset |]], t as [t |]; reflexivity. Qed.

Lemma Get_values_offset (options : Options) (t : option AlbumType) :
  url.Get (ArtistAlbumsOpt_values options t) "offset"
  = match Offset options with Some o => [strconv.Itoa o] | None => [] end.
Proof. destruct options as [[country |] [limit |] [offset |]], t as [t |]; reflexivity. Qed.

Lemma Get_values_market (options : Options) (t : option AlbumType) :
  url.Get (ArtistAlbumsOpt_values options t) "market" = [market options].
Proof. destruct options as [[country |] [limit |] [offset |]], t as [t |]; reflexivity. Qed.

Lemma Get_values_album_type (options : Options) (t : option AlbumType) :
  url.Get (ArtistAlbumsOpt_values options t) "album_type"
  = match t with Some t => [encode t] | None => [] end.
Proof. destruct options as [[country |] [limit |] [offset |]], t as [t |]; reflexivity. Qed.

Lemma Itoa_injective_option (a b : option Z) :
  (forall x, a = Some x -> is_int x) -> (forall x, b = Some x -> is_int x) ->
  match a with Some l => [strconv.Itoa l] | None => [] end
  = match b with Some l => [strconv.Itoa l] | None => [] end ->
  a = b.
Proof.
  intros Ha Hb E. destruct a as [x |], b as [y |]; try discriminate; [| reflexivity].
  inversion E as [E'].
  pose proof (strconv_facts.parseDecimal_Itoa x (Ha x eq_refl)) as Px.
  pose proof (strconv_facts.parseDecimal_Itoa y (Hb y eq_refl)) as Py.
  rewrite E' in Px. congruence.
Qed.

(** X15: the query string determines what was set: two calls with the same
    query string have the same limit and the same offset (unset, or set to
    the same number, zero included), the same market after the fallback, and
    the same album type token or none. *)
Theorem ArtistAlbumsOpt_query_injective (o1 o2 : Options) (t1 t2 : option AlbumType) :
  (forall n, Limit o1 = Some n \/ Offset o1 = Some n \/
             Limit o2 = Some n \/ Offset o2 = Some n -> is_int n) ->
  ArtistAlbumsOpt_query o1 t1 = ArtistAlbumsOpt_query o2 t2 ->
  Limit o1 = Limit o2 /\ Offset o1 = Offset o2 /\ market o1 = market o2 /\
  option_map encode t1 = option_map encode t2.
Proof.
  intros Hint Hq.
  destruct (query_parses_back o1 t1) as (m1 & P1 & G1).
  destruct (query_parses_back o2 t2) as (m2 & P2 & G2).
  rewrite Hq, P2 in P1. inversion P1; subst m2.
  assert (G : forall key, url.Get (ArtistAlbumsOpt_values o1 t1) key
                          = url.Get (ArtistAlbumsOpt_values o2 t2) key).
  { intros key. now rewrite <- G1, <- G2. }
  split; [| split; [| split]].
  - pose proof (G "limit") as E. rewrite !Get_values_limit in E.
    apply Itoa_injective_option in E; [exact E | |]; intros x Hx; apply Hint; tauto.
  - pose proof (G "offset") as E. rewrite !Get_values_offset in E.
    apply Itoa_injective_option in E; [exact E | |]; intros x Hx; apply Hint; tauto.
  - pose proof (G "market") as E. rewrite !Get_values_market in E. now inversion E.
  - pose proof (G "album_type") as E. rewrite !Get_values_album_type in E.
    destruct t1, t2; cbn; congruence.
Qed.

End RoundTrip.

End urlquery_facts.

(* ================================================================== *)
(** ** The identifiers in the request of [FindArtists] *)

Section Identifiers.

Context {pkg : Package}.

Lemma append_cancel_l (s a b : string) : s ++ a = s ++ b -> a = b.
Proof. induction s as [| c s IH]; cbn; intros E; [exact E | inversion E; auto]. Qed.

(** X16: [FindArtists] requests the URI that ends in the comma-joined
    identifiers; for lists that are not empty and whose identifiers hold no
    comma, different lists give different URIs.  Without these conditions
    requests coincide: an identifier with a comma is requested as two
    identifiers, and no identifier at all as the one empty identifier. *)
Theorem FindArtists_uri_injective (ids ids' : list ID) :
  ids <> [] -> ids' <> [] ->
  Forall albumtype.comma_free ids -> Forall albumtype.comma_free ids' ->
  (forall (World : Type) (c : Client World) (w : World),
      FindArtists c ids w
      = outcome c (FindArtists_uri ids) [] (decodeElements (field "Artists")) w) /\
  (FindArtists_uri ids = FindArtists_uri ids' -> ids = ids') /\
  (forall a b : ID, FindArtists_uri [a ++ "," ++ b] = FindArtists_uri [a; b]) /\
  FindArtists_uri [] = FindArtists_uri [""].
Proof.
  intros Hne Hne' Hcf Hcf'. split; [| split; [| split; reflexivity]].
  - intros World c w. destruct (method_outcome c) as (_ & M & _). apply M.
  - unfold FindArtists_uri, toStringSlice. rewrite !map_id. intros E.
    apply append_cancel_l in E. apply (append_cancel_l "artists?ids=") in E.
    rewrite <- (albumtype_facts.Split_Join ids Hne Hcf).
    rewrite <- (albumtype_facts.Split_Join ids' Hne' Hcf').
    now rewrite E.
Qed.

End Identifiers.

(* ================================================================== *)
(** ** More examples on the Web API instance *)

Module more_examples.

Ltac member_at n :=
  match goal with
  | |- json.member_is _ (json.Document (json.Object ?l)) _ _ =>
      exists (firstn n l), (skipn (S n) l);
      match eval cbv in (nth_error l n) with
      | Some (?k, _) => exists k
      end;
      split; [reflexivity | split; [reflexivity | repeat constructor]]
  end.

(** X1 on the instance: status 204 is an error. *)
Lemma status_other_than_200_is_error_witness :
  (204 <> StatusOK) /\
  ArtistAlbums (pkg := example_pkg) (answering 204 page_body) "X" []
  = ((None, Some (OtherError "spotify: couldn't decode error" 0)),
     [Requested "https://api.spotify.com/v1/artists/X/albums"; Closed]).
Proof.
  assert (Hs : 204 <> StatusOK) by discriminate.
  split; [exact Hs |].
  destruct (status_other_than_200_is_error (pkg := example_pkg) (answering 204 page_body))
    as (_ & _ & _ & _ & _ & H6).
  exact (H6 "X" {| StatusCode := 204; Body := page_body |} []
            [Requested "https://api.spotify.com/v1/artists/X/albums"] eq_refl Hs).
Defined.

(** X2 on the instance: a total that is a string is a type error of the
    envelope. *)
Lemma decode_error_unchanged_witness :
  ArtistAlbums (pkg := example_pkg)
    (answering 200 (json.Document (json.Object [("total", json.Str "many")]))) "X" []
  = ((None, Some (UnmarshalTypeError "int")),
     [Requested "https://api.spotify.com/v1/artists/X/albums"; Closed]).
Proof.
  destruct (decode_error_unchanged (pkg := example_pkg)
              (answering 200 (json.Document (json.Object [("total", json.Str "many")]))))
    as (_ & _ & _ & _ & _ & H6).
  exact (H6 "X" {| StatusCode := 200;
                   Body := json.Document (json.Object [("total", json.Str "many")]) |} []
            [Requested "https://api.spotify.com/v1/artists/X/albums"]
            (UnmarshalTypeError "int") eq_refl eq_refl eq_refl).
Defined.

(** X3 on the instance: the error of the transport comes with no artists. *)
Lemma error_implies_nil_value_witness :
  snd (fst (FindArtists (pkg := example_pkg) (failing (OtherError "timeout" 110)) ["A"] []))
  = Some (OtherError "timeout" 110) /\
  fst (fst (FindArtists (pkg := example_pkg) (failing (OtherError "timeout" 110)) ["A"] []))
  = [].
Proof.
  split; [reflexivity |].
  destruct (error_implies_nil_value (pkg := example_pkg) (failing (OtherError "timeout" 110)))
    as (_ & H2 & _).
  exact (H2 ["A"] [] (OtherError "timeout" 110) eq_refl).
Defined.

(** X6 on the instance: the artist A. *)
Lemma FindArtist_fields_witness :
  FindArtist (pkg := example_pkg) (answering 200 artist_body) "A" []
  = ((Some (artist_entity "A" "Alpha"), None),
     [Requested "https://api.spotify.com/v1/artists/A"; Closed]) /\
  Name (Simple (artist_entity "A" "Alpha")) = "Alpha" /\
  Popularity (artist_entity "A" "Alpha") = 50.
Proof.
  destruct (FindArtist_fields (pkg := example_pkg) (answering 200 artist_body) "A" []
              [Requested "https://api.spotify.com/v1/artists/A"]
              {| StatusCode := 200; Body := artist_body |} (artist_entity "A" "Alpha")
              eq_refl eq_refl eq_refl) as (Hcall & Hname & _ & _ & _ & Hpop).
  split; [exact Hcall | split].
  - apply Hname. cbn [Body]. unfold artist_body, artist_json. member_at 6%nat.
  - apply Hpop. cbn [Body]. unfold artist_body, artist_json. member_at 7%nat.
Defined.

(** X7 on the instance: an object that holds no field of an artist. *)
Lemma FindArtist_without_fields_witness :
  FindArtist (pkg := example_pkg)
             (answering 200 (json.Document (json.Object [("message", json.Str "hello")]))) "A" []
  = ((Some FullArtist_zero, None), [Requested "https://api.spotify.com/v1/artists/A"; Closed]).
Proof.
  apply (FindArtist_without_fields (pkg := example_pkg)
           (answering 200 (json.Document (json.Object [("message", json.Str "hello")])))
           "A" [] [Requested "https://api.spotify.com/v1/artists/A"]
           {| StatusCode := 200;
              Body := json.Document (json.Object [("message", json.Str "hello")]) |}
           eq_refl eq_refl).
  right. exists [("message", json.Str "hello")]. split; [reflexivity |].
  repeat constructor.
Defined.

(** X8 on the instance: the member [type] of the artist A. *)
Lemma FindArtist_ignores_unknown_member_witness :
  unknown_to FullArtist_fields "type" /\
  FindArtist (pkg := example_pkg) (answering 200 artist_body) "A" []
  = ((Some (artist_entity "A" "Alpha"), None),
     [Requested "https://api.spotify.com/v1/artists/A"; Closed]).
Proof.
  assert (Hk : unknown_to FullArtist_fields "type") by reflexivity.
  split; [exact Hk |].
  match eval cbv [artist_body artist_json] in artist_body with
  | json.Document (json.Object ?l) =>
      exact (FindArtist_ignores_unknown_member (pkg := example_pkg)
               (answering 200 artist_body) "A" []
               [Requested "https://api.spotify.com/v1/artists/A"]
               {| StatusCode := 200; Body := artist_body |}
               (firstn 8 l) (skipn 9 l) "type" (json.Str "artist")
               eq_refl eq_refl eq_refl Hk)
  end.
Defined.

(** X9 on the instance: an empty object. *)
Lemma list_methods_without_member_witness :
  FindArtists (pkg := example_pkg) (answering 200 (json.Document (json.Object []))) ["A"] []
  = (([], None), [Requested "https://api.spotify.com/v1/artists?ids=A"; Closed]).
Proof.
  destruct (list_methods_without_member (pkg := example_pkg)
              (answering 200 (json.Document (json.Object []))) []
              [Requested "https://api.spotify.com/v1/artists?ids=A"]
              {| StatusCode := 200; Body := json.Document (json.Object []) |} eq_refl)
    as (H1 & _).
  apply (H1 ["A"] eq_refl). right. exists []. split; [reflexivity | constructor].
Defined.

(** X10 on the instance: a related artist and a [null]. *)
Lemma FindRelatedArtists_preserves_order_witness :
  exists artists,
    FindRelatedArtists (pkg := example_pkg) (answering 200 related_body) "A" []
    = ((artists, None),
       [Requested "https://api.spotify.com/v1/artists/A/related-artists"; Closed]) /\
    List.length artists = 2%nat /\
    nth_error artists 1 = Some FullArtist_zero.
Proof.
  destruct (FindRelatedArtists_preserves_order (pkg := example_pkg)
              (answering 200 related_body) "A" []
              [Requested "https://api.spotify.com/v1/artists/A/related-artists"]
              {| StatusCode := 200; Body := related_body |}
              [artist_json "B" "Beta"; json.Null] eq_refl eq_refl)
    as (artists & Hcall & Hlen & _ & Hnull).
  { exists [], [], "artists". split; [reflexivity | split; [reflexivity | constructor]]. }
  { repeat (apply Forall_cons; [eexists; reflexivity |]). apply Forall_nil. }
  exists artists. split; [exact Hcall | split; [exact Hlen | exact (Hnull 1%nat eq_refl)]].
Defined.

(** X11 on the instance: two tracks. *)
Lemma ArtistsTopTracks_preserves_order_witness :
  exists tracks,
    ArtistsTopTracks (pkg := example_pkg) (answering 200 tracks_body) "A" "SE" []
    = ((tracks, None),
       [Requested "https://api.spotify.com/v1/artists/A/top-tracks?country=SE"; Closed]) /\
    List.length tracks = 2%nat.
Proof.
  destruct (ArtistsTopTracks_preserves_order (pkg := example_pkg)
              (answering 200 tracks_body) "A" "SE" []
              [Requested "https://api.spotify.com/v1/artists/A/top-tracks?country=SE"]
              {| StatusCode := 200; Body := tracks_body |}
              [track_json "t1"; track_json "t2"] eq_refl eq_refl)
    as (tracks & Hcall & Hlen & _).
  { exists [], [], "tracks". split; [reflexivity | split; [reflexivity | constructor]]. }
  { repeat (apply Forall_cons; [eexists; reflexivity |]). apply Forall_nil. }
  exists tracks. split; [exact Hcall | exact Hlen].
Defined.

(** X12 on the instance: an envelope with a limit and a total only. *)
Lemma ArtistAlbumsOpt_without_items_witness :
  ArtistAlbums (pkg := example_pkg) (answering 200 page_without_items) "X" []
  = ((None, Some SyntaxError),
     [Requested "https://api.spotify.com/v1/artists/X/albums"; Closed]).
Proof.
  apply (ArtistAlbumsOpt_without_items (pkg := example_pkg)
           (answering 200 page_without_items) "X" None None []
           [Requested "https://api.spotify.com/v1/artists/X/albums"]
           {| StatusCode := 200; Body := page_without_items |}
           (Build_rawPage "" 10 "" 0 "" 37 None)
           [("limit", json.Number 10); ("total", json.Number 37)]
           eq_refl eq_refl eq_refl).
  - repeat constructor.
  - reflexivity.
Defined.

(** X13 on the instance: an envelope whose items are [null]. *)
Lemma ArtistAlbumsOpt_null_items_witness :
  ArtistAlbums (pkg := example_pkg) (answering 200 page_null_items) "X" []
  = ((Some (@Build_SimpleAlbumPage example_pkg "" 10 0 0 "" "" []), None),
     [Requested "https://api.spotify.com/v1/artists/X/albums"; Closed]).
Proof.
  apply (ArtistAlbumsOpt_null_items (pkg := example_pkg)
           (answering 200 page_null_items) "X" None None []
           [Requested "https://api.spotify.com/v1/artists/X/albums"]
           {| StatusCode := 200; Body := page_null_items |}
           (Build_rawPage "" 10 "" 0 "" 0 (Some json.Null))
           eq_refl eq_refl eq_refl).
  cbn [Body]. unfold page_null_items. member_at 0%nat.
Defined.

(** X15 on the instance: a limit of zero against no limit. *)
Lemma ArtistAlbumsOpt_query_injective_witness :
  ArtistAlbumsOpt_query (pkg := example_pkg) options_FR_10_0 None
  = ArtistAlbumsOpt_query (pkg := example_pkg) options_FR_10_0 None /\
  Limit options_FR_10_0 = Limit options_FR_10_0 /\
  ArtistAlbumsOpt_query (pkg := example_pkg) {| Country := None; Limit := Some 0; Offset := None |} None
  <> ArtistAlbumsOpt_query (pkg := example_pkg) no_options None.
Proof.
  split; [reflexivity | split].
  - apply (urlquery_facts.ArtistAlbumsOpt_query_injective (pkg := example_pkg)
             options_FR_10_0 options_FR_10_0 None None).
    + intros n [H | [H | [H | H]]]; inversion H; unfold is_int, int_min, int_max; cbn; lia.
    + reflexivity.
  - intros E.
    apply (urlquery_facts.ArtistAlbumsOpt_query_injective (pkg := example_pkg)) in E.
    + destruct E as (E & _). discriminate E.
    + intros n [H | [H | [H | H]]]; inversion H; unfold is_int, int_min, int_max; cbn; lia.
Defined.

(** X16 on the instance: two identifiers. *)
Lemma FindArtists_uri_injective_witness :
  FindArtists_uri (pkg := example_pkg) ["A"; "B"] = "https://api.spotify.com/v1/artists?ids=A,B" /\
  (FindArtists_uri (pkg := example_pkg) ["A"; "B"] = FindArtists_uri (pkg := example_pkg) ["A"; "B"] ->
   ["A"; "B"] = ["A"; "B"]).
Proof.
  split; [reflexivity |].
  apply (FindArtists_uri_injective (pkg := example_pkg) ["A"; "B"] ["A"; "B"]);
    try discriminate; repeat constructor.
Defined.

(** X17 on the instance: an artist followed by a number. *)
Lemma list_methods_fail_on_bad_element_witness :
  FindRelatedArtists (pkg := example_pkg) (answering 200 bad_artists_body) "A" []
  = (([], Some (UnmarshalTypeError "FullArtist")),
     [Requested "https://api.spotify.com/v1/artists/A/related-artists"; Closed]).
Proof.
  destruct (list_methods_fail_on_bad_element (pkg := example_pkg)
              (answering 200 bad_artists_body) []
              [Requested "https://api.spotify.com/v1/artists/A/related-artists"]
              {| StatusCode := 200; Body := bad_artists_body |}
              [artist_json "A" "Alpha"; json.Number 3] (UnmarshalTypeError "FullArtist")
              eq_refl) as (_ & _ & H3).
  apply (H3 "A" eq_refl).
  - exists [], [], "artists". split; [reflexivity | split; [reflexivity | constructor]].
  - exists [artist_json "A" "Alpha"], (json.Number 3), [].
    split; [reflexivity | split; [| reflexivity]].
    apply Forall_cons; [eexists; reflexivity | apply Forall_nil].
Defined.

End more_examples.
